(** * DEIMOS beamline alignment: the notebook's alignment scripts

    A shallow embedding of the alignment cells of the DEIMOS PyOptiX
    notebook ([align_undulator], [align_m1], [align_mono], [align_call],
    [beamline_energy_resolution]), of the cell that builds [Deimos.chains]
    and of the loops that list the configurations of the calculation cell,
    with the properties of them that the specification states and further
    properties read off the code.

    How the notebook is modelled:
    - optical elements are Python objects shared by every chain that lists
      them, so they live in a store addressed by reference, and a chain is a
      list of references; two positions of a chain may hold the same object;
    - a statement runs on the notebook's state and either returns or raises;
      an exception keeps the assignments made before it;
    - numbers are binary64 floats; [/] between Python floats raises on a
      zero divisor, [/] by a numpy value ([np.sin], [np.tan], an entry of the
      energy array) follows IEEE 754;
    - the optics engine, the source model, the grating solver and numpy's
      [sin] and [tan] are not part of the notebook: they are the variables of
      the section below.  A method of a collaborator acts on the object it
      is called on, and leaves it alone when it fails;
    - [print] calls are recorded with the values they format. *)

From Stdlib Require Import ZArith String Ascii Floats List Lia Bool DecimalString.
From stdpp Require Import base functions list strings gmap.

Set Warnings "-inexact-float".

(** ** Python values and built-in operations *)

(** The exceptions the notebook's code can end with.  An exception raised
    inside a collaborator (PyOptiX, the source model, the grating solver)
    propagates unmodified; the model tags it with its origin. *)
Inductive exn : Type :=
| ValueError (msg : string)
| IndexError
| ZeroDivisionError
| AttributeError (attr : string)
| LibraryError (msg : string).

(** [str.lower()] on the ASCII range, which is where the keywords live. *)
Definition lower_char (c : ascii) : ascii :=
  let n := nat_of_ascii c in
  if (Nat.leb 65 n && Nat.leb n 90)%bool then ascii_of_nat (n + 32) else c.

Fixpoint lower (s : string) : string :=
  match s with
  | EmptyString => EmptyString
  | String c s' => String (lower_char c) (lower s')
  end.

(** [sub in s] on strings: [sub] occurs somewhere in [s]. *)
Fixpoint str_in (sub s : string) : bool :=
  (String.prefix sub s
   || match s with
      | EmptyString => false
      | String _ s' => str_in sub s'
      end)%bool.

(** [c * n] for a one-character string; empty when [n <= 0]. *)
Definition str_repeat (c : ascii) (n : Z) : string :=
  Nat.iter (Z.to_nat n) (String c) EmptyString.

(** [enumerate(l)], counting from [i]. *)
Fixpoint enumerate_from {A : Type} (i : nat) (l : list A) : list (nat * A) :=
  match l with
  | [] => []
  | x :: l' => (i, x) :: enumerate_from (S i) l'
  end.

Definition enumerate {A : Type} (l : list A) : list (nat * A) := enumerate_from 0 l.

(** *** Fixed-point formatting, [format(x, ".<digits>f")]

    Python prints the exact binary value rounded to the nearest decimal with
    [digits] places, ties to even. *)
Definition round_half_even (p q : Z) : Z :=
  let n := (p / q)%Z in
  let r := (p mod q)%Z in
  match (2 * r ?= q)%Z with
  | Lt => n
  | Gt => (n + 1)%Z
  | Eq => if Z.even n then n else (n + 1)%Z
  end.

Definition decimal (n : Z) : string := NilZero.string_of_uint (N.to_uint (Z.to_N n)).

Definition place_point (digits : nat) (s : string) : string :=
  let padded := str_repeat "0" (Z.of_nat (S digits) - Z.of_nat (String.length s)) +:+ s in
  let k := (String.length padded - digits)%nat in
  match digits with
  | O => padded
  | S _ => substring 0 k padded +:+ "." +:+ substring k digits padded
  end.

Definition format_fixed (digits : nat) (x : float) : string :=
  let sign (s : bool) : string := if s then "-" else "" in
  match Prim2SF x with
  | S754_nan => "nan"
  | S754_infinity s => sign s +:+ "inf"
  | S754_zero s => sign s +:+ place_point digits "0"
  | S754_finite s m e =>
      let scaled := (Z.pos m * 10 ^ Z.of_nat digits)%Z in
      let n := if (0 <=? e)%Z then (scaled * 2 ^ e)%Z
               else round_half_even scaled (2 ^ (- e)) in
      sign s +:+ place_point digits (decimal n)
  end.

(** ** Constants of [scipy.constants] *)

Definition degree : float := 0x1.1df46a2529d39p-6%float.   (* pi/180 *)
Definition nano : float := 1e-9%float.
Definition milli : float := 1e-3%float.
Definition hc : float := (6.62607015e-34 * 299792458 / 1.602176634e-19)%float.   (* h*c/eV *)

(** ** Data model *)

(** A reference to an optical element (the identity of a Python object). *)
Definition oe_ref : Type := nat.

(** The attributes of an element that the alignment reads or writes.
    [order_align] and [line_density] exist on gratings only; [attrs] stands
    for the attributes PyOptiX keeps besides (curvatures, source sizes, ...). *)
Record OpticalElement : Type := mkOE {
  name : string;
  theta : float;
  phi : float;
  distance_from_previous : float;
  next : option oe_ref;
  order_align : option Z;
  line_density : option float;
  attrs : list (string * float)
}.

Definition with_theta (t : float) (e : OpticalElement) : OpticalElement :=
  mkOE (name e) t (phi e) (distance_from_previous e) (next e)
       (order_align e) (line_density e) (attrs e).

Definition with_distance (d : float) (e : OpticalElement) : OpticalElement :=
  mkOE (name e) (theta e) (phi e) d (next e)
       (order_align e) (line_density e) (attrs e).

Definition with_next (n : option oe_ref) (e : OpticalElement) : OpticalElement :=
  mkOE (name e) (theta e) (phi e) (distance_from_previous e) n
       (order_align e) (line_density e) (attrs e).

(** What the grating solver returns with [return_parameters=True]. *)
Record gdict : Type := mkGdict {
  alpha : float;
  beta : float;
  alpha_deg : float;
  beta_deg : float;
  deviation : float
}.

(** The keyword options the alignment steps look up with [kwargs.get]. *)
Record Kwargs : Type := mkKwargs {
  kw_verbose : option bool;
  kw_dist_slit : option float;
  kw_dist_next : option float
}.

Definition kwargs_get {A : Type} (o : option A) (default : A) : A :=
  match o with
  | Some v => v
  | None => default
  end.

(** How [alignment_condition_str] is put together in [align_mono]. *)
Inductive condition_text : Type :=
| In_degrees (x : float)      (* f"{alignment_condition_value/degree :.3f}" *)
| As_given (x : float).       (* alignment_condition_value *)

(** One [print] call: which one, and the values it formats. *)
Inductive output : Type :=
| Out_aligning_undulator
| Out_aligning_M1
| Out_M1_alignment (nm : string) (angle dist : float)
| Out_grating_alignment (nm condition : string) (value : condition_text)
                        (wavelength_nm energy_eV : float)
| Out_alpha (deg : float)
| Out_beta (deg : float)
| Out_cff (value : float)
| Out_GM2_distance (gm2 : float)
| Out_theta_m2 (deg : float)
| Out_M2M3_distance (m2m3 : float)
| Out_condition (condition : string) (algn : float)
| Out_progress (bar : string) (progress : Z)
| Out_progress_done.

(** The notebook's state: the element objects, [Deimos.chains],
    [Deimos.active_chain], and what has been printed. *)
Record World : Type := mkWorld {
  elements : oe_ref -> OpticalElement;
  chains : gmap string (list oe_ref);
  active_chain : list oe_ref;
  stdout : list output
}.

Definition with_elements (f : oe_ref -> OpticalElement) (w : World) : World :=
  mkWorld f (chains w) (active_chain w) (stdout w).

Definition with_stdout (o : list output) (w : World) : World :=
  mkWorld (elements w) (chains w) (active_chain w) o.

(** The keyword arguments of [Deimos.get_resolution] as the sweep passes them. *)
Record resolution_request : Type := mkRequest {
  rr_mono_slit : oe_ref;
  rr_wavelength : float;
  rr_orientation : string;
  rr_dlambda_over_lambda : float;
  rr_show_spd : bool;
  rr_verbose : Z;
  rr_nrays : Z;
  rr_criterion : string;
  rr_alignment_condition : string;
  rr_alignment_condition_value : float;
  rr_m1_distances : list (list float);
  rr_GM2_trans_dist : float;
  rr_GM3_proj_dist : float
}.

(** ** Statements that run on the notebook's state and may raise *)

Definition M (A : Type) : Type := World -> World * (exn + A).

Definition ret {A : Type} (a : A) : M A := fun w => (w, inr a).

Definition raise {A : Type} (e : exn) : M A := fun w => (w, inl e).

Definition bind {A B : Type} (m : M A) (k : A -> M B) : M B :=
  fun w =>
    match m w with
    | (w', inr a) => k a w'
    | (w', inl e) => (w', inl e)
    end.

Declare Scope py_scope.
Delimit Scope py_scope with py.
Notation "x <- m ;; k" := (bind m (fun x => k))
  (at level 100, m at next level, right associativity) : py_scope.
Notation "m ;; k" := (bind m (fun _ => k))
  (at level 100, right associativity) : py_scope.
Open Scope py_scope.

Definition final_world {A : Type} (r : World * (exn + A)) : World := fst r.
Definition outcome {A : Type} (r : World * (exn + A)) : exn + A := snd r.

Definition when (b : bool) (m : M unit) : M unit := if b then m else ret tt.

Definition print (o : output) : M unit :=
  fun w => (with_stdout (stdout w ++ [o]) w, inr tt).

(** [l[i]] for [i >= 0]. *)
Definition item {A : Type} (l : list A) (i : nat) : M A :=
  match l !! i with
  | Some x => ret x
  | None => raise IndexError
  end.

(** [oe.<attribute>] and [oe.<attribute> = v]. *)
Definition getattr {A : Type} (oe : oe_ref) (attribute : OpticalElement -> A) : M A :=
  fun w => (w, inr (attribute (elements w oe))).

Definition setattr (oe : oe_ref) (assign : OpticalElement -> OpticalElement) : M unit :=
  fun w => (with_elements (<[oe := assign (elements w oe)]> (elements w)) w, inr tt).

(** An attribute that only some element classes have. *)
Definition getattr_opt {A : Type} (oe : oe_ref) (attribute : OpticalElement -> option A)
    (attr_name : string) : M A :=
  fun w =>
    match attribute (elements w oe) with
    | Some v => (w, inr v)
    | None => (w, inl (AttributeError attr_name))
    end.

(** [x / y] on Python floats. *)
Definition py_truediv (x y : float) : M float :=
  if PrimFloat.eqb y 0 then raise ZeroDivisionError else ret (x / y)%float.

(** [a % b] on Python integers. *)
Definition py_mod (a b : Z) : M Z :=
  if (b =? 0)%Z then raise ZeroDivisionError else ret (a mod b)%Z.

(** [for x in l: acc = body(acc, x)]. *)
Fixpoint for_each {A B : Type} (l : list A) (body : B -> A -> M B) (acc : B) : M B :=
  match l with
  | [] => ret acc
  | x :: l' => acc' <- body acc x ;; for_each l' body acc'
  end.

(** ** The beamline the notebook declares

    The element objects of the declaration cells, with the parameters the
    notebook gives them before any alignment, and two of the chains it
    builds.  The examples at the end run on it. *)

Definition undulator_U52 : oe_ref := 0.
Definition undulator_U65 : oe_ref := 1.
Definition pupil : oe_ref := 2.
Definition m1a : oe_ref := 3.
Definition m1b : oe_ref := 4.
Definition m1c : oe_ref := 5.
Definition grating_1600 : oe_ref := 6.
Definition grating_2400 : oe_ref := 7.
Definition m2 : oe_ref := 8.
Definition m3 : oe_ref := 9.
Definition foc_hor : oe_ref := 10.
Definition mono_exit_slit : oe_ref := 11.

(** A freshly constructed element. *)
Definition new_element (nm : string) : OpticalElement :=
  mkOE nm 0 0 0 None None None [].

(** [opx.M1_triad_distances(incident_angle=m1_grazing_angles,
    transverse_distance=41e-3)] is computed by PyOptiX; these are the values
    of 41e-3/sin(2 theta) and 41e-3/tan(2 theta) for the two grazing angles. *)
Definition triad_distances : list (list float) :=
  [[0.46485; 0.46304]; [0.98731; 0.98646]]%float.

Definition declared_element (oe : oe_ref) : OpticalElement :=
  match oe with
  | 0 => new_element "U52"
  | 1 => new_element "U65"
  | 2 => mkOE "pupil" 0 0 21 (Some m1a) None None []
  | 3 => mkOE "M1A" 0 (-90 * degree) 0 None None None []
  | 4 => mkOE "M1B" (2.53 * degree) (180 * degree) 0.46485 None None None
              [("minor_curvature", 1 / 1.894); ("major_curvature", 1 / 228.0)]
  | 5 => mkOE "M1C" (1.2 * degree) (180 * degree) 0.98731 None None None
              [("minor_curvature", 1 / 0.91); ("major_curvature", 1 / 455)]
  | 6 => mkOE "grating_1600" 0 (-90 * degree) 5.0 (Some m2) (Some 1%Z)
              (Some (1600 / milli)) []
  | 7 => mkOE "grating_2400" 0 (-90 * degree) 5.0 (Some m2) (Some 1%Z)
              (Some (2400 / milli)) []
  | 8 => mkOE "M2" 0 (180 * degree) 0 (Some m3) None None []
  | 9 => mkOE "M3" (1.2 * degree) (90 * degree) 0 (Some foc_hor) None None
              [("curvature", 1 / 0.16776); ("axis_angle", 90 * degree)]
  | 10 => mkOE "mono_foc_hor" 0 (90 * degree) 0.2 (Some mono_exit_slit) None None []
  | 11 => mkOE "mono_foc_ver" 0 (0 * degree) 3.8 None None None []
  | _ => new_element ""
  end%float.

Definition chain_U52_M1B_G1600_mono : list oe_ref :=
  [undulator_U52; pupil; m1a; m1b; grating_1600; m2; m3; foc_hor; mono_exit_slit].

Definition chain_U65_M1C_G2400_mono : list oe_ref :=
  [undulator_U65; pupil; m1a; m1c; grating_2400; m2; m3; foc_hor; mono_exit_slit].

Definition declared_chains : gmap string (list oe_ref) :=
  <["U52_M1B_G1600_mono" := chain_U52_M1B_G1600_mono]>
    (<["U65_M1C_G2400_mono" := chain_U65_M1C_G2400_mono]> ∅).

Definition declared_world (chain : list oe_ref) : World :=
  mkWorld declared_element declared_chains chain [].

(** A path without a grating: the monochromator is left out. *)
Definition chain_without_grating : list oe_ref :=
  [undulator_U52; pupil; m1a; m1b; m2; m3; foc_hor; mono_exit_slit].

(** A path that lists both gratings, and a store in which the second one
    carries the French name. *)
Definition chain_two_gratings : list oe_ref :=
  [undulator_U52; pupil; m1a; m1b; grating_1600; grating_2400; m2; m3; foc_hor].

Definition reseau_elements : oe_ref -> OpticalElement :=
  <[grating_2400 := mkOE "RESEAU_2400" 0%float (-90 * degree)%float 5.0%float (Some m2)
                         (Some 1%Z) (Some (2400 / milli)%float) []]> declared_element.

Definition reseau_world (chain : list oe_ref) : World :=
  mkWorld reseau_elements declared_chains chain [].

(** A path that puts a grating where the alignment expects the second M1
    mirror. *)
Definition chain_grating_in_m1_slot : list oe_ref :=
  [undulator_U52; pupil; m1a; grating_1600; m2; m3; foc_hor; mono_exit_slit].

(** No keyword options, and the verbose report. *)
Definition no_options : Kwargs := mkKwargs None None None.
Definition verbose_options : Kwargs := mkKwargs (Some true) None None.

(** *** Stand-ins for the collaborators

    Simple functions of the right shape, to run the notebook's functions on
    concrete inputs: truncated series for [np.sin] and [np.tan], a source
    model that records the wavelength on the source, a solver that knows the
    fixed-deviation condition only (the grating takes the angle, the
    deviation is twice the angle), a position table, a chain selector that
    looks the name up in [Deimos.chains], and a resolution figure. *)

Definition series_sin (x : float) : float :=
  (x - x * x * x / 6 + x * x * x * x * x / 120)%float.

Definition series_tan (x : float) : float :=
  (x + x * x * x / 3 + 2 * x * x * x * x * x / 15)%float.

Definition recording_source (wavelength : float) (kwargs : Kwargs) (e : OpticalElement)
    : string + OpticalElement :=
  inr (mkOE (name e) (theta e) (phi e) (distance_from_previous e) (next e)
            (order_align e) (line_density e) [("wavelength", wavelength)]).

Definition omega_solver (g : OpticalElement) (condition : string)
    (condition_value lambda_align : float) (order : Z) (density : float)
    : string + (OpticalElement * gdict) :=
  if String.eqb condition "omega"
  then inr (with_theta condition_value g,
            mkGdict condition_value condition_value
                    (condition_value / degree) (condition_value / degree)
                    (2 * condition_value))%float
  else inl "unknown alignment condition".

Definition position_table : list (string * float) :=
  [("DEIMOS_1", 0); ("DEIMOS_2", 1.8)]%float.

Definition select_chain (config : string) (w : World) : string + World :=
  match chains w !! config with
  | Some chain => inr (mkWorld (elements w) (chains w) chain (stdout w))
  | None => inl "unknown chain"
  end.

Definition flat_resolution (request : resolution_request) (w : World)
    : string + (World * float) :=
  inr (w, (rr_wavelength request * rr_dlambda_over_lambda request)%float).

(** The alignment wavelength of 1500 eV and the fixed deviation of the
    2400 l/mm grating, as the notebook's calculation cells use them; what
    the stand-in solver returns for that deviation; ten energies. *)
Definition wavelength_1500eV : float := (hc / 1500)%float.
Definition omega_value : float := (0.692 * degree)%float.

Definition omega_gdict : gdict :=
  mkGdict omega_value omega_value (omega_value / degree)%float
          (omega_value / degree)%float (2 * omega_value)%float.

Definition ten_energies : list float :=
  [350; 400; 450; 500; 550; 600; 650; 700; 750; 800]%float.

(** *** The other elements of the declaration cell

    The second undulator lattice, the refocusing mirrors and the two
    endstations; every element as its constructor leaves it, which is the
    state in which the chains are built. *)

Definition undulator_SII : oe_ref := 12.
Definition m4a : oe_ref := 13.
Definition m4b : oe_ref := 14.
Definition m5a : oe_ref := 15.
Definition m5b : oe_ref := 16.
Definition cromag : oe_ref := 17.
Definition mk2t : oe_ref := 18.

Definition constructed_name (oe : oe_ref) : string :=
  match oe with
  | 0 => "U52"
  | 1 => "U65"
  | 2 => "pupil"
  | 3 => "M1A"
  | 4 => "M1B"
  | 5 => "M1C"
  | 6 => "grating_1600"
  | 7 => "grating_2400"
  | 8 => "M2"
  | 9 => "M3"
  | 10 => "mono_foc_hor"
  | 11 => "mono_foc_ver"
  | 12 => "SII"
  | 13 => "M4A"
  | 14 => "M4B"
  | 15 => "M5A"
  | 16 => "M5B"
  | 17 => "cromag"
  | 18 => "mk2t"
  | _ => ""
  end.

Definition constructed_element (oe : oe_ref) : OpticalElement :=
  new_element (constructed_name oe).

(** The notebook's state when the chains are built: no chain yet. *)
Definition constructed_world : World := mkWorld constructed_element ∅ [] [].

(** A beamline that accepts every configuration name: an unknown name
    selects the empty path. *)
Definition accept_chain (config : string) (w : World) : string + World :=
  inr (mkWorld (elements w) (chains w) (default [] (chains w !! config)) (stdout w)).

(** Paths cut short, and a store in which the film after the
    monochromator carries a grating's name. *)
Definition chain_source_only : list oe_ref := [undulator_U52].
Definition chain_to_m1 : list oe_ref := [undulator_U52; pupil; m1a; m1b].
Definition chain_to_grating : list oe_ref :=
  [undulator_U52; pupil; m1a; m1b; grating_1600].

Definition monitor_elements : oe_ref -> OpticalElement :=
  <[foc_hor := new_element "grating_monitor"]> declared_element.

(** ** The notebook's functions *)

Section Notebook.

(** *** Collaborators *)

(** [np.sin] and [np.tan]. *)
Variables np_sin np_tan : float -> float.

(** [source.set_undulator(wavelength, **kwargs)]: the source model
    reconfigures the source object it is called on, or fails. *)
Variable set_undulator : float -> Kwargs -> OpticalElement -> string + OpticalElement.

(** [opx.align_grating(grating, verbose=0, apply_alignment=True,
    return_parameters=True, condition, condition_value, lambda_align,
    order, line_density)]: the solver applies the alignment to the grating
    object and returns the angles, or fails. *)
Variable align_grating :
  OpticalElement -> string -> float -> float -> Z -> float ->
  string + (OpticalElement * gdict).

(** The table [electron_parameters], read from a file of the resources
    directory: its columns [BeamLineName] and [Long_Pos(m)]. *)
Variable electron_parameters : list (string * float).

(** [Deimos.active_chain = config] and [Deimos.get_resolution(...)]. *)
Variable set_active_chain : string -> World -> string + World.
Variable get_resolution : resolution_request -> World -> string + (World * float).

(** The global [m1_distances], computed by [opx.M1_triad_distances]. *)
Variable m1_distances : list (list float).

(** A method of a collaborator, called on one element. *)
Definition call_on {A : Type} (oe : oe_ref)
    (method : OpticalElement -> string + (OpticalElement * A)) : M A :=
  fun w =>
    match method (elements w oe) with
    | inr (e', a) => (with_elements (<[oe := e']> (elements w)) w, inr a)
    | inl msg => (w, inl (LibraryError msg))
    end.

(** A method of the beamline object. *)
Definition call_beamline {A : Type} (method : World -> string + (World * A)) : M A :=
  fun w =>
    match method w with
    | inr (w', a) => (w', inr a)
    | inl msg => (w, inl (LibraryError msg))
    end.

(** [float(electron_parameters[electron_parameters.BeamLineName == bl]
    ["Long_Pos(m)"].iloc[0])]. *)
Definition long_pos_rows (bl : string) : list float :=
  map snd (List.filter (fun row => String.eqb (fst row) bl) electron_parameters).

Definition long_pos (bl : string) : M float := item (long_pos_rows bl) 0.

(** [m[i][j]] on a nested sequence. *)
Definition item2 (m : list (list float)) (i j : nat) : M float :=
  row <- item m i ;; item row j.

(** *** Undulators *)

Definition align_undulator (active_chain : list oe_ref) (wavelength : float)
    (kwargs : Kwargs) : M unit :=
  let verbose := kwargs_get (kw_verbose kwargs) false in
  let dist_slit := kwargs_get (kw_dist_slit kwargs) 21%float in
  when verbose (print Out_aligning_undulator) ;;
  (* active_chain[0].set_undulator(wavelength, **kwargs) *)
  source <- item active_chain 0 ;;
  call_on source (fun e => match set_undulator wavelength kwargs e with
                           | inr e' => inr (e', tt)
                           | inl msg => inl msg
                           end) ;;
  (* active_chain[1].distance_from_previous = dist_slit *)
  slit <- item active_chain 1 ;;
  setattr slit (with_distance dist_slit) ;;
  (* if "65" in active_chain[0].name: *)
  source <- item active_chain 0 ;;
  source_name <- getattr source name ;;
  if str_in "65" source_name then
    (* active_chain[1].distance_from_previous -= (DEIMOS_2 - DEIMOS_1) *)
    slit <- item active_chain 1 ;;
    d <- getattr slit distance_from_previous ;;
    long2 <- long_pos "DEIMOS_2" ;;
    long1 <- long_pos "DEIMOS_1" ;;
    setattr slit (with_distance (d - (long2 - long1))%float)
  else ret tt.

(** *** M1 *)

Definition align_m1 (active_chain : list oe_ref) (m1_distances : list (list float))
    (kwargs : Kwargs) : M unit :=
  let dist_next := kwargs_get (kw_dist_next kwargs) 5%float in
  let verbose := kwargs_get (kw_verbose kwargs) false in
  when verbose (print Out_aligning_M1) ;;
  (* active_chain[2].theta = active_chain[3].theta *)
  m1bis <- item active_chain 3 ;;
  angle <- getattr m1bis theta ;;
  flat <- item active_chain 2 ;;
  setattr flat (with_theta angle) ;;
  (* active_chain[2].next = active_chain[3] *)
  m1bis <- item active_chain 3 ;;
  flat <- item active_chain 2 ;;
  setattr flat (with_next (Some m1bis)) ;;
  (* active_chain[3].next = active_chain[4] *)
  following <- item active_chain 4 ;;
  m1bis <- item active_chain 3 ;;
  setattr m1bis (with_next (Some following)) ;;
  (* active_chain[4].distance_from_previous = dist_next *)
  following <- item active_chain 4 ;;
  setattr following (with_distance dist_next) ;;
  (* if "1B" in active_chain[3].name: *)
  m1bis <- item active_chain 3 ;;
  m1bis_name <- getattr m1bis name ;;
  (if str_in "1B" m1bis_name then
     (* active_chain[4].distance_from_previous += (m1_distances[1][1]-m1_distances[0][1]) *)
     following <- item active_chain 4 ;;
     d <- getattr following distance_from_previous ;;
     long_c <- item2 m1_distances 1 1 ;;
     long_b <- item2 m1_distances 0 1 ;;
     setattr following (with_distance (d + (long_c - long_b))%float)
   else ret tt) ;;
  when verbose
    (m1bis <- item active_chain 3 ;;
     nm <- getattr m1bis name ;;
     m1bis <- item active_chain 3 ;;
     t <- getattr m1bis theta ;;
     angle <- py_truediv t degree ;;
     m1bis <- item active_chain 3 ;;
     dist <- getattr m1bis distance_from_previous ;;
     print (Out_M1_alignment nm angle dist)).

(** *** Monochromator *)

(** The test of the scan: ["reseau" in oe.name.lower() or "grating" in
    oe.name.lower()]. *)
Definition is_grating_name (nm : string) : bool :=
  (str_in "reseau" (lower nm) || str_in "grating" (lower nm))%bool.

(** One turn of the scan loop: a match overwrites [grating] and
    [mono_oe_pos]; there is no [break]. *)
Definition scan_step (els : oe_ref -> OpticalElement)
    (found : option (oe_ref * nat)) (turn : nat * oe_ref) : option (oe_ref * nat) :=
  let '(count, oe) := turn in
  if is_grating_name (name (els oe)) then Some (oe, count) else found.

Definition scan_grating (els : oe_ref -> OpticalElement) (active_chain : list oe_ref)
    : option (oe_ref * nat) :=
  fold_left (scan_step els) (enumerate active_chain) None.

Definition scan_for_grating (active_chain : list oe_ref) : M (option (oe_ref * nat)) :=
  fun w => (w, inr (scan_grating (elements w) active_chain)).

Definition no_grating_message : string :=
  "No grating appears in this beamline configuration".

Definition align_mono (active_chain : list oe_ref) (wavelength : float)
    (alignment_condition : string) (alignment_condition_value : float)
    (GM2_trans_dist GM3_proj_dist : float) (kwargs : Kwargs) : M unit :=
  let verbose := kwargs_get (kw_verbose kwargs) false in
  found <- scan_for_grating active_chain ;;
  match found with
  | None => raise (ValueError no_grating_message)
  | Some (grating, mono_oe_pos) =>
      order <- getattr_opt grating order_align "order_align" ;;
      density <- getattr_opt grating line_density "line_density" ;;
      gd <- call_on grating
              (fun e => align_grating e alignment_condition alignment_condition_value
                                      wavelength order density) ;;
      let gm2 := (GM2_trans_dist / np_sin (deviation gd))%float in
      let m2m3 := (GM3_proj_dist - (GM2_trans_dist / np_tan (deviation gd)))%float in
      (* active_chain[int(mono_oe_pos+1)].theta = gdict["deviation"]/2 *)
      mirror2 <- item active_chain (mono_oe_pos + 1) ;;
      setattr mirror2 (with_theta (deviation gd / 2)%float) ;;
      (* active_chain[int(mono_oe_pos+1)].distance_from_previous = gm2 *)
      mirror2 <- item active_chain (mono_oe_pos + 1) ;;
      setattr mirror2 (with_distance gm2) ;;
      (* active_chain[int(mono_oe_pos+2)].distance_from_previous = m2m3 *)
      mirror3 <- item active_chain (mono_oe_pos + 2) ;;
      setattr mirror3 (with_distance m2m3) ;;
      when verbose
        (value <- (if String.eqb alignment_condition "omega"
                   then (v <- py_truediv alignment_condition_value degree ;;
                         ret (In_degrees v))
                   else ret (As_given alignment_condition_value)) ;;
         nm <- getattr grating name ;;
         wavelength_nm <- py_truediv wavelength nano ;;
         energy_eV <- py_truediv hc wavelength ;;
         print (Out_grating_alignment nm alignment_condition value
                                      wavelength_nm energy_eV) ;;
         print (Out_alpha (alpha_deg gd)) ;;
         print (Out_beta (beta_deg gd)) ;;
         when (String.eqb alignment_condition "omega")
              (print (Out_cff (np_sin (beta gd) / np_sin (alpha gd))%float)) ;;
         print (Out_GM2_distance gm2) ;;
         print (Out_theta_m2 ((alpha_deg gd + beta_deg gd) / 2)%float) ;;
         print (Out_M2M3_distance m2m3))
  end.

(** *** Beamline alignment procedure *)

Definition get_active_chain : M (list oe_ref) := fun w => (w, inr (active_chain w)).

Definition align_call (alignment_wvl emission_wvl : float)
    (alignment_condition : string) (alignment_condition_value : float)
    (m1_distances : list (list float)) (GM2_trans_dist GM3_proj_dist : float)
    (kwargs : Kwargs) : M unit :=
  chain <- get_active_chain ;;
  align_undulator chain emission_wvl kwargs ;;
  chain <- get_active_chain ;;
  align_m1 chain m1_distances kwargs ;;
  chain <- get_active_chain ;;
  align_mono chain alignment_wvl alignment_condition alignment_condition_value
             GM2_trans_dist GM3_proj_dist kwargs.

(** *** Calculation of the beamline energy resolution *)

(** The body of [if i % (total_steps // 10) == 0:].  [progress] is
    [int(np.ceil(100*i / total_steps))] and [num_hashes] is
    [int(progress / bar_length)]; both are computed here on integers, which
    gives the same values as the float quotients for any array of fewer
    than 2^45 points. *)
Definition report_progress (i total_steps bar_length : Z) : M unit :=
  (if (total_steps =? 0)%Z then raise ZeroDivisionError else ret tt) ;;
  let progress := (- ((- (100 * i)) / total_steps))%Z in
  let num_hashes := (progress / bar_length)%Z in
  let bar := str_repeat "#" num_hashes +:+ str_repeat "-" (bar_length - num_hashes) in
  print (Out_progress bar progress).

Definition energy_step (total_steps bar_length : Z) (alignment_condition : string)
    (algn : float) (nrays : Z) (curves : list float) (turn : nat * float)
    : M (list float) :=
  let '(i, E) := turn in
  r <- py_mod (Z.of_nat i) (total_steps / 10) ;;
  when (r =? 0)%Z (report_progress (Z.of_nat i) total_steps bar_length) ;;
  let lambda_align := (hc / E)%float in
  res <- call_beamline
           (get_resolution
              (mkRequest mono_exit_slit lambda_align "vertical" (1 / 5000)%float
                         false 0 nrays "fwhm" alignment_condition algn
                         m1_distances 20e-3%float 700e-3%float)) ;;
  ret (curves ++ [res]).

Definition config_step (energy : list float) (total_steps bar_length : Z)
    (alignment_condition : string) (algn : float) (nrays : Z)
    (resolution : gmap string (list float)) (config : string)
    : M (gmap string (list float)) :=
  (* Deimos.active_chain = config *)
  call_beamline (fun w => match set_active_chain config w with
                          | inr w' => inr (w', tt)
                          | inl msg => inl msg
                          end) ;;
  curves <- for_each (enumerate energy)
              (energy_step total_steps bar_length alignment_condition algn nrays) [] ;;
  print Out_progress_done ;;
  ret (<[config +:+ "_" +:+ alignment_condition +:+ "_" +:+ format_fixed 2 algn
         := curves]> resolution).

Definition condition_step (energy : list float) (active_chains : list string)
    (total_steps bar_length : Z) (alignment_condition : string) (nrays : Z)
    (resolution : gmap string (list float)) (algn : float)
    : M (gmap string (list float)) :=
  print (Out_condition alignment_condition algn) ;;
  for_each active_chains
    (config_step energy total_steps bar_length alignment_condition algn nrays)
    resolution.

Definition beamline_energy_resolution (energy : list float) (active_chains : list string)
    (alignment_condition : string) (alignment_condition_values : list float)
    (nrays : Z) : M (gmap string (list float)) :=
  let total_steps := Z.of_nat (length energy) in
  let bar_length := 10%Z in
  let resolution : gmap string (list float) := {["energy" := energy]} in
  for_each alignment_condition_values
    (condition_step energy active_chains total_steps bar_length alignment_condition nrays)
    resolution.

(** *** Beamline configurations

    The cell that fills [Deimos.chains], used as a dictionary from chain
    names to lists of elements, and the loops of the calculation cell that
    build the list of configuration names. *)

(** [s.split(sep)] for a separator of one character. *)
Fixpoint split_on (sep : ascii) (s : string) : list string :=
  match s with
  | EmptyString => [EmptyString]
  | String c s' =>
      if Ascii.eqb c sep then EmptyString :: split_on sep s'
      else match split_on sep s' with
           | piece :: pieces => String c piece :: pieces
           | [] => [String c EmptyString]
           end
  end.

(** [l[-k]] for [k >= 1]. *)
Definition item_from_end {A : Type} (l : list A) (k : nat) : M A :=
  if (k <=? length l)%nat then item l (length l - k) else raise IndexError.

(** [s[-1]], a string of one character. *)
Definition last_character (s : string) : M string :=
  c <- item_from_end (list_ascii_of_string s) 1 ;;
  ret (String c EmptyString).

Definition with_chains (c : gmap string (list oe_ref)) (w : World) : World :=
  mkWorld (elements w) c (active_chain w) (stdout w).

(** [Deimos.chains[chain_name] = chain]. *)
Definition set_chain (chain_name : string) (chain : list oe_ref) : M unit :=
  fun w => (with_chains (<[chain_name := chain]> (chains w)) w, inr tt).

(** The list [beamline] of the innermost-but-one loop. *)
Definition beamline_of (undulator m1bis grating : oe_ref) : list oe_ref :=
  [undulator; pupil; m1a; m1bis; grating; m2; m3; foc_hor; mono_exit_slit].

(** The body of [for focusing in wolters]. *)
Definition chain_step (undulator m1bis grating : oe_ref) (endstations : list oe_ref)
    (_ : unit) (focusing : list oe_ref) : M unit :=
  let beamline := beamline_of undulator m1bis grating in
  if (1 <? length focusing)%nat then
    undulator_name <- getattr undulator name ;;
    m1bis_name <- getattr m1bis name ;;
    grating_name <- getattr grating name ;;
    lines <- item (split_on "_" grating_name) 1 ;;
    mirror <- item_from_end focusing 2 ;;
    mirror_name <- getattr mirror name ;;
    letter <- last_character mirror_name ;;
    set_chain (undulator_name +:+ "_" +:+ m1bis_name +:+ "_G" +:+ lines
               +:+ "_WLT_" +:+ letter)
              (beamline ++ focusing ++ endstations)
  else
    undulator_name <- getattr undulator name ;;
    m1bis_name <- getattr m1bis name ;;
    grating_name <- getattr grating name ;;
    lines <- item (split_on "_" grating_name) 1 ;;
    set_chain (undulator_name +:+ "_" +:+ m1bis_name +:+ "_G" +:+ lines +:+ "_mono")
              beamline.

(** The four nested loops of the cell that fills [Deimos.chains]. *)
Definition build_chains (undulators m1 gratings : list oe_ref)
    (wolters : list (list oe_ref)) (endstations : list oe_ref) : M unit :=
  for_each undulators
    (fun _ undulator =>
       for_each m1
         (fun _ m1bis =>
            for_each gratings
              (fun _ grating =>
                 for_each wolters (chain_step undulator m1bis grating endstations) tt)
              tt)
         tt)
    tt.

(** The cell itself, with the lists it declares. *)
Definition declare_chains : M unit :=
  build_chains [undulator_U52; undulator_U65; undulator_SII] [m1b; m1c]
               [grating_1600; grating_2400] [[m4a; m5a]; [m4b; m5b]; []]
               [cromag; mk2t].

(** The loops of the calculation cell that fill [configs]: every
    combination is appended, in order, except those of a mirror whose name
    contains "1B" with a grating whose name contains "2400". *)
Definition build_configs (und mirror mono endstation : list string) : list string :=
  fold_left
    (fun configs u =>
       fold_left
         (fun configs mr =>
            fold_left
              (fun configs mn =>
                 fold_left
                   (fun configs ends =>
                      if (str_in "1B" mr && str_in "2400" mn)%bool then configs
                      else configs ++ [u +:+ "_" +:+ mr +:+ "_" +:+ mn +:+ "_" +:+ ends])
                   endstation configs)
              mono configs)
         mirror configs)
    und [].

(** [configs] as the calculation cell builds it. *)
Definition calculation_configs : list string :=
  build_configs ["U52"; "SII"] ["M1B"; "M1C"] ["G1600"; "G2400"] ["WLT_A"; "WLT_B"].

(** ** Vocabulary of the statements *)

(** [m[i][j]] when both indices are in range. *)
Definition entry (m : list (list float)) (i j : nat) : option float :=
  match m !! i with
  | Some row => row !! j
  | None => None
  end.

(** The scan test on an element of the store. *)
Definition matches (els : oe_ref -> OpticalElement) (oe : oe_ref) : Prop :=
  is_grating_name (name (els oe)) = true.

(** [g] sits at position [p], matches, and nothing after it does. *)
Definition last_match (els : oe_ref -> OpticalElement) (chain : list oe_ref)
    (g : oe_ref) (p : nat) : Prop :=
  chain !! p = Some g /\ matches els g /\
  forall j h, (p < j)%nat -> chain !! j = Some h -> ~ matches els h.

(** The distance [align_undulator] leaves on the second element, for a
    source of the given name. *)
Definition undulator_distance (kw : Kwargs) (source_name : string) (d : float) : Prop :=
  let dist_slit := kwargs_get (kw_dist_slit kw) 21%float in
  if str_in "65" source_name
  then exists long2 long1,
      long_pos_rows "DEIMOS_2" !! 0%nat = Some long2 /\
      long_pos_rows "DEIMOS_1" !! 0%nat = Some long1 /\
      d = (dist_slit - (long2 - long1))%float
  else d = dist_slit.

(** The store after a completed [align_undulator]. *)
Definition undulator_elements (c0 c1 : oe_ref) (source' : OpticalElement) (d : float)
    (els : oe_ref -> OpticalElement) : oe_ref -> OpticalElement :=
  let els0 := <[c0 := source']> els in
  <[c1 := with_distance d (els0 c1)]> els0.

(** The distance [align_m1] leaves on the fifth element, for a fourth
    element of the given name. *)
Definition m1_distance (m1d : list (list float)) (kw : Kwargs) (m1bis_name : string)
    (d : float) : Prop :=
  let dist_next := kwargs_get (kw_dist_next kw) 5%float in
  if str_in "1B" m1bis_name
  then exists long_c long_b,
      entry m1d 1 1 = Some long_c /\ entry m1d 0 1 = Some long_b /\
      d = (dist_next + (long_c - long_b))%float
  else d = dist_next.

(** The store after a completed [align_m1]. *)
Definition m1_elements (c2 c3 c4 : oe_ref) (d : float)
    (els : oe_ref -> OpticalElement) : oe_ref -> OpticalElement :=
  let els1 := <[c2 := with_theta (theta (els c3)) (els c2)]> els in
  let els2 := <[c2 := with_next (Some c3) (els1 c2)]> els1 in
  let els3 := <[c3 := with_next (Some c4) (els2 c3)]> els2 in
  <[c4 := with_distance d (els3 c4)]> els3.

(** The two distances of the monochromator leg. *)
Definition gm2_distance (GM2_trans_dist : float) (gd : gdict) : float :=
  (GM2_trans_dist / np_sin (deviation gd))%float.

Definition m2m3_distance (GM2_trans_dist GM3_proj_dist : float) (gd : gdict) : float :=
  (GM3_proj_dist - (GM2_trans_dist / np_tan (deviation gd)))%float.

(** The store after the three assignments of [align_mono]: the grating
    as the solver left it, then the two elements that follow it. *)
Definition mono_elements (g : oe_ref) (g' : OpticalElement) (a b : oe_ref) (gd : gdict)
    (GM2_trans_dist GM3_proj_dist : float)
    (els : oe_ref -> OpticalElement) : oe_ref -> OpticalElement :=
  let els0 := <[g := g']> els in
  let els1 := <[a := with_theta (deviation gd / 2)%float (els0 a)]> els0 in
  let els2 := <[a := with_distance (gm2_distance GM2_trans_dist gd) (els1 a)]> els1 in
  <[b := with_distance (m2m3_distance GM2_trans_dist GM3_proj_dist gd) (els2 b)]> els2.

(** What [align_m1] may write, whether it completes or raises on a short
    chain or table: the third element's angle and [next], the fourth
    element's [next], the fifth element's distance. *)
Definition m1_frame (chain : list oe_ref) (els els' : oe_ref -> OpticalElement) : Prop :=
  forall h,
    name (els' h) = name (els h)
    /\ phi (els' h) = phi (els h)
    /\ order_align (els' h) = order_align (els h)
    /\ line_density (els' h) = line_density (els h)
    /\ attrs (els' h) = attrs (els h)
    /\ (chain !! 2%nat <> Some h -> theta (els' h) = theta (els h))
    /\ (chain !! 4%nat <> Some h ->
        distance_from_previous (els' h) = distance_from_previous (els h))
    /\ (chain !! 2%nat <> Some h -> chain !! 3%nat <> Some h ->
        next (els' h) = next (els h))
    /\ (chain !! 3%nat = Some h -> theta (els' h) = theta (els h)).

(** Re-entrant collaborators: calling the source model or the solver
    again on the object it has just configured, with the same arguments,
    changes nothing, and neither touches the attributes the notebook
    reads back (the name; the grating's distance, order and density). *)
Definition stable_source : Prop :=
  forall wavelength kw e e',
    set_undulator wavelength kw e = inr e' ->
    name e' = name e /\ set_undulator wavelength kw e' = inr e'.

Definition stable_solver : Prop :=
  forall e condition value wavelength order density e' gd,
    align_grating e condition value wavelength order density = inr (e', gd) ->
    name e' = name e
    /\ distance_from_previous e' = distance_from_previous e
    /\ order_align e' = order_align e
    /\ line_density e' = line_density e
    /\ align_grating e' condition value wavelength order density = inr (e', gd).

(** What the table holds once the columns of the pairs in [P] are in. *)
Definition table_of (energy : list float) (condition : string)
    (P : string -> float -> Prop) (table : gmap string (list float)) : Prop :=
  table !! "energy" = Some energy
  /\ (forall config algn,
        P config algn ->
        exists curve,
          table !! (config +:+ "_" +:+ condition +:+ "_" +:+ format_fixed 2 algn)
          = Some curve
          /\ length curve = length energy)
  /\ (forall key curve,
        table !! key = Some curve ->
        key = "energy"
        \/ exists config algn,
            P config algn
            /\ key = config +:+ "_" +:+ condition +:+ "_" +:+ format_fixed 2 algn).

(** A chain as the declaration cell lays it out: source, aperture, M1A,
    one of the M1 mirrors, one of the gratings, M2, M3, the two films of the
    monochromator, and then either nothing or one of the focusing groups
    followed by the endstations. *)
Definition laid_out (undulators m1 gratings : list oe_ref)
    (wolters : list (list oe_ref)) (endstations : list oe_ref)
    (chain : list oe_ref) : Prop :=
  exists undulator m1bis grating tail,
    undulator ∈ undulators /\ m1bis ∈ m1 /\ grating ∈ gratings
    /\ chain = [undulator; pupil; m1a; m1bis; grating; m2; m3; foc_hor; mono_exit_slit]
               ++ tail
    /\ (tail = []
        \/ exists focusing,
            focusing ∈ wolters /\ (1 < length focusing)%nat
            /\ tail = focusing ++ endstations).

(** A statement that, run from a state in [I], stays in [I] and ends
    normally or with the exception [e]; one that always ends with [e]. *)
Definition raises_only {A : Type} (I : World -> Prop) (e : exn) (m : M A) : Prop :=
  forall w, I w ->
    I (final_world (m w))
    /\ (outcome (m w) = inl e \/ exists r, outcome (m w) = inr r).

Definition raises_always {A : Type} (I : World -> Prop) (e : exn) (m : M A) : Prop :=
  forall w, I w -> outcome (m w) = inl e.

(** ** Running statements *)

Lemma run_ret {A B : Type} (a : A) (k : A -> M B) (w : World) :
  bind (ret a) k w = k a w.
Proof. reflexivity. Qed.

Lemma run_assoc {A B C : Type} (m : M A) (k1 : A -> M B) (k2 : B -> M C) (w : World) :
  bind (bind m k1) k2 w = bind m (fun a => bind (k1 a) k2) w.
Proof. unfold bind. destruct (m w) as [w' [e|a]]; reflexivity. Qed.

Lemma run_item {A B : Type} (l : list A) (i : nat) (x : A) (k : A -> M B) (w : World) :
  l !! i = Some x -> bind (item l i) k w = k x w.
Proof. intros H. unfold bind, item. rewrite H. reflexivity. Qed.

Lemma run_item_none {A B : Type} (l : list A) (i : nat) (k : A -> M B) (w : World) :
  l !! i = None -> bind (item l i) k w = (w, inl IndexError).
Proof. intros H. unfold bind, item. rewrite H. reflexivity. Qed.

Lemma run_item2 {B : Type} (m : list (list float)) (i j : nat) (x : float)
    (k : float -> M B) (w : World) :
  entry m i j = Some x -> bind (item2 m i j) k w = k x w.
Proof.
  unfold entry, item2. intros H. destruct (m !! i) as [row|] eqn:Hrow; [|discriminate].
  unfold bind, item. rewrite Hrow. unfold ret at 1. rewrite H. reflexivity.
Qed.

Lemma run_item2_none {B : Type} (m : list (list float)) (i j : nat)
    (k : float -> M B) (w : World) :
  entry m i j = None -> bind (item2 m i j) k w = (w, inl IndexError).
Proof.
  unfold entry, item2. intros H. unfold bind, item.
  destruct (m !! i) as [row|] eqn:Hrow; [|reflexivity].
  unfold ret at 1. rewrite H. reflexivity.
Qed.

Lemma run_getattr {A B : Type} (oe : oe_ref) (attribute : OpticalElement -> A)
    (k : A -> M B) (w : World) :
  bind (getattr oe attribute) k w = k (attribute (elements w oe)) w.
Proof. reflexivity. Qed.

Lemma run_getattr_opt {A B : Type} (oe : oe_ref)
    (attribute : OpticalElement -> option A) (attr_name : string) (v : A)
    (k : A -> M B) (w : World) :
  attribute (elements w oe) = Some v ->
  bind (getattr_opt oe attribute attr_name) k w = k v w.
Proof. intros H. unfold bind, getattr_opt. rewrite H. reflexivity. Qed.

Lemma run_getattr_opt_none {A B : Type} (oe : oe_ref)
    (attribute : OpticalElement -> option A) (attr_name : string)
    (k : A -> M B) (w : World) :
  attribute (elements w oe) = None ->
  bind (getattr_opt oe attribute attr_name) k w = (w, inl (AttributeError attr_name)).
Proof. intros H. unfold bind, getattr_opt. rewrite H. reflexivity. Qed.

Lemma run_setattr {B : Type} (oe : oe_ref) (assign : OpticalElement -> OpticalElement)
    (k : unit -> M B) (w : World) :
  bind (setattr oe assign) k w
  = k tt (mkWorld (<[oe := assign (elements w oe)]> (elements w))
                  (chains w) (active_chain w) (stdout w)).
Proof. reflexivity. Qed.

Lemma run_call_on {A B : Type} (oe : oe_ref)
    (method : OpticalElement -> string + (OpticalElement * A))
    (e' : OpticalElement) (a : A) (k : A -> M B) (w : World) :
  method (elements w oe) = inr (e', a) ->
  bind (call_on oe method) k w
  = k a (mkWorld (<[oe := e']> (elements w)) (chains w) (active_chain w) (stdout w)).
Proof. intros H. unfold bind, call_on. rewrite H. reflexivity. Qed.

Lemma run_call_on_fails {A B : Type} (oe : oe_ref)
    (method : OpticalElement -> string + (OpticalElement * A))
    (msg : string) (k : A -> M B) (w : World) :
  method (elements w oe) = inl msg ->
  bind (call_on oe method) k w = (w, inl (LibraryError msg)).
Proof. intros H. unfold bind, call_on. rewrite H. reflexivity. Qed.

Lemma run_print {B : Type} (o : output) (k : unit -> M B) (w : World) :
  bind (print o) k w
  = k tt (mkWorld (elements w) (chains w) (active_chain w) (stdout w ++ [o])).
Proof. reflexivity. Qed.

Lemma run_truediv {B : Type} (x y : float) (k : float -> M B) (w : World) :
  PrimFloat.eqb y 0 = false -> bind (py_truediv x y) k w = k (x / y)%float w.
Proof. intros H. unfold bind, py_truediv. rewrite H. reflexivity. Qed.

Lemma run_truediv_zero {B : Type} (x y : float) (k : float -> M B) (w : World) :
  PrimFloat.eqb y 0 = true -> bind (py_truediv x y) k w = (w, inl ZeroDivisionError).
Proof. intros H. unfold bind, py_truediv. rewrite H. reflexivity. Qed.

Lemma last_ret {A : Type} (a : A) (w : World) : ret a w = (w, inr a).
Proof. reflexivity. Qed.

Lemma last_setattr (oe : oe_ref) (assign : OpticalElement -> OpticalElement) (w : World) :
  setattr oe assign w
  = (mkWorld (<[oe := assign (elements w oe)]> (elements w))
             (chains w) (active_chain w) (stdout w), inr tt).
Proof. reflexivity. Qed.

Lemma last_print (o : output) (w : World) :
  print o w = (mkWorld (elements w) (chains w) (active_chain w) (stdout w ++ [o]), inr tt).
Proof. reflexivity. Qed.

Lemma degree_not_zero : PrimFloat.eqb degree 0 = false.
Proof. reflexivity. Qed.

Lemma nano_not_zero : PrimFloat.eqb nano 0 = false.
Proof. reflexivity. Qed.

(** After an assignment, give the new store a name. *)
Ltac name_heap :=
  try match goal with
      | |- context [mkWorld (<[?oe := ?v]> ?E) _ _ _] =>
          let els := fresh "els" in set (els := <[oe := v]> E) in *
      end.

(** One statement forward, using what the context knows about the chain,
    the tables and the attributes. *)
Ltac run_step :=
  match goal with
  | |- context [bind (ret _) _ _] => rewrite run_ret
  | H : ?l !! ?i = Some _ |- context [bind (item ?l ?i) _ _] =>
      rewrite (run_item l i _ _ _ H)
  | H : ?l !! ?i = None |- context [bind (item ?l ?i) _ _] =>
      rewrite (run_item_none l i _ _ H)
  | H : entry ?m ?i ?j = Some ?x |- context [bind (item2 ?m ?i ?j) _ _] =>
      rewrite (run_item2 m i j x) by exact H
  | H : entry ?m ?i ?j = None |- context [bind (item2 ?m ?i ?j) _ _] =>
      rewrite (run_item2_none m i j) by exact H
  | |- context [bind (getattr _ _) _ _] => rewrite run_getattr
  | |- context [bind (setattr _ _) _ _] => rewrite run_setattr
  | |- context [bind (print _) _ _] => rewrite run_print
  | |- context [bind (py_truediv _ degree) _ _] =>
      rewrite run_truediv by exact degree_not_zero
  | |- context [bind (py_truediv _ nano) _ _] =>
      rewrite run_truediv by exact nano_not_zero
  | H : PrimFloat.eqb ?y 0 = false |- context [bind (py_truediv _ ?y) _ _] =>
      rewrite run_truediv by exact H
  | H : PrimFloat.eqb ?y 0 = true |- context [bind (py_truediv _ ?y) _ _] =>
      rewrite run_truediv_zero by exact H
  | |- context [bind (bind _ _) _ _] => rewrite run_assoc
  | |- context [ret _ (mkWorld _ _ _ _)] => rewrite last_ret
  | |- context [setattr _ _ (mkWorld _ _ _ _)] => rewrite last_setattr
  | |- context [print _ (mkWorld _ _ _ _)] => rewrite last_print
  end;
  cbn beta;
  cbn [elements chains active_chain stdout];
  name_heap.

Ltac run := repeat run_step.

Ltac unfold_heaps :=
  repeat match goal with
    | x := _ : oe_ref -> OpticalElement |- _ => subst x
    end.

Ltac fields :=
  cbn [name theta phi distance_from_previous next order_align line_density attrs
       with_theta with_distance with_next].

(** Reading a store after assignments: settle each comparison of
    references from the context, or else by cases. *)
Ltac heap_lookup :=
  repeat match goal with
    | |- context [(<[?a := ?v]> ?E) ?a] => rewrite (fn_lookup_insert E a v)
    | H : ?a <> ?b |- context [(<[?a := ?v]> ?E) ?b] =>
        rewrite (fn_lookup_insert_ne E a b v H)
    | H : ?b <> ?a |- context [(<[?a := ?v]> ?E) ?b] =>
        rewrite (fn_lookup_insert_ne E a b v (not_eq_sym H))
    | |- context [(<[?a := ?v]> ?E) ?b] =>
        destruct (decide (a = b)) as [->|?]
    end.

(** ** The sweep *)

Lemma short_array_step (n : nat) : (n < 10)%nat -> (Z.of_nat n / 10 = 0)%Z.
Proof. intros H. apply Z.div_small. lia. Qed.

Lemma energy_step_short (total_steps bar_length : Z) (condition : string)
    (algn : float) (nrays : Z) (curves : list float) (turn : nat * float) (w : World) :
  (total_steps / 10 = 0)%Z ->
  energy_step total_steps bar_length condition algn nrays curves turn w
  = (w, inl ZeroDivisionError).
Proof.
  intros H. destruct turn as [i E]. unfold energy_step. rewrite H. reflexivity.
Qed.

Lemma energy_loop_short (energy : list float) (total_steps bar_length : Z)
    (condition : string) (algn : float) (nrays : Z) (w : World) :
  energy <> [] ->
  (total_steps / 10 = 0)%Z ->
  for_each (enumerate energy)
           (energy_step total_steps bar_length condition algn nrays) [] w
  = (w, inl ZeroDivisionError).
Proof.
  intros Hne H. destruct energy as [|E rest]; [congruence|].
  cbn [enumerate enumerate_from for_each]. unfold bind.
  rewrite energy_step_short by exact H. reflexivity.
Qed.

Lemma config_step_short (energy : list float) (total_steps bar_length : Z)
    (condition : string) (algn : float) (nrays : Z)
    (resolution : gmap string (list float)) (config : string) (w w' : World) :
  energy <> [] ->
  (total_steps / 10 = 0)%Z ->
  set_active_chain config w = inr w' ->
  config_step energy total_steps bar_length condition algn nrays resolution config w
  = (w', inl ZeroDivisionError).
Proof.
  intros Hne H Hsel. unfold config_step, bind, call_beamline.
  rewrite Hsel. rewrite energy_loop_short by assumption. reflexivity.
Qed.

(** C9.  On a non-empty energy array of fewer than ten points the sweep
    raises ZeroDivisionError at the first energy point of the first
    configuration: [total_steps // 10] is 0 and [i % 0] raises.  The world
    it ends in is the one the selection of that configuration returned
    (after the header line of the first condition value was printed): no
    resolution was asked for and no table is returned. *)
Theorem short_sweep_divides_by_zero
    (energy : list float) (config : string) (configs : list string)
    (alignment_condition : string) (algn : float) (values : list float)
    (nrays : Z) (w w' : World) :
  energy <> [] ->
  (length energy < 10)%nat ->
  set_active_chain config
    (with_stdout (stdout w ++ [Out_condition alignment_condition algn]) w) = inr w' ->
  beamline_energy_resolution energy (config :: configs) alignment_condition
                             (algn :: values) nrays w
  = (w', inl ZeroDivisionError).
Proof.
  intros Hne Hlen Hsel.
  unfold beamline_energy_resolution.
  cbn [for_each]. unfold condition_step at 1.
  cbn [for_each]. unfold bind, print.
  rewrite (config_step_short _ _ _ _ _ _ _ _ _ w' Hne (short_array_step _ Hlen) Hsel).
  reflexivity.
Qed.

(** ** The scan for the grating *)

Lemma scan_from_no_match (els : oe_ref -> OpticalElement) (l : list oe_ref) :
  (forall h, h ∈ l -> ~ matches els h) ->
  forall i found, fold_left (scan_step els) (enumerate_from i l) found = found.
Proof.
  induction l as [|x l IH]; intros Hno i found; [reflexivity|].
  cbn [enumerate_from fold_left scan_step].
  destruct (is_grating_name (name (els x))) eqn:Hx.
  - exfalso. apply (Hno x); [left | exact Hx].
  - apply IH. intros h Hh. apply Hno. right. exact Hh.
Qed.

Lemma scan_from_last_match (els : oe_ref -> OpticalElement) (l : list oe_ref)
    (g : oe_ref) :
  forall j i found,
    last_match els l g j ->
    fold_left (scan_step els) (enumerate_from i l) found = Some (g, (i + j)%nat).
Proof.
  induction l as [|x l IH]; intros j i found (Hj & Hg & Hlater).
  - destruct j; discriminate Hj.
  - cbn [enumerate_from fold_left scan_step].
    destruct j as [|j].
    + injection Hj as ->. unfold matches in Hg. rewrite Hg.
      rewrite scan_from_no_match.
      * f_equal. f_equal. lia.
      * intros h Hh. apply list_elem_of_lookup in Hh as [k Hk].
        apply (Hlater (S k) h); [lia | exact Hk].
    + rewrite (IH j (S i)).
      * f_equal. f_equal. lia.
      * split; [exact Hj | split; [exact Hg |]].
        intros k h Hk Hh. apply (Hlater (S k) h); [lia | exact Hh].
Qed.

Lemma last_match_or_none (els : oe_ref -> OpticalElement) (l : list oe_ref) :
  (forall h, h ∈ l -> ~ matches els h) \/ exists g j, last_match els l g j.
Proof.
  induction l as [|x l [Hno | (g & j & Hj & Hg & Hlater)]].
  - left. intros h Hh. inversion Hh.
  - destruct (is_grating_name (name (els x))) eqn:Hx.
    + right. exists x, 0%nat. split; [reflexivity | split; [exact Hx |]].
      intros [|k] h Hk Hh; [lia |].
      apply (Hno h). apply list_elem_of_lookup. exists k. exact Hh.
    + left. intros h Hh. apply elem_of_cons in Hh as [-> | Hh].
      * unfold matches. rewrite Hx. discriminate.
      * apply Hno. exact Hh.
  - right. exists g, (S j). split; [exact Hj | split; [exact Hg |]].
    intros [|k] h Hk Hh; [lia |]. apply (Hlater k h); [lia | exact Hh].
Qed.

Lemma scan_grating_last_match (els : oe_ref -> OpticalElement) (chain : list oe_ref)
    (g : oe_ref) (p : nat) :
  scan_grating els chain = Some (g, p) <-> last_match els chain g p.
Proof.
  unfold scan_grating, enumerate. split.
  - intros Hscan. destruct (last_match_or_none els chain) as [Hno | (g' & j & Hlast)].
    + rewrite scan_from_no_match in Hscan by exact Hno. discriminate.
    + rewrite (scan_from_last_match els chain g' j 0 None Hlast) in Hscan.
      injection Hscan as -> ->. exact Hlast.
  - intros Hlast. apply (scan_from_last_match els chain g p 0 None Hlast).
Qed.

Lemma scan_grating_none (els : oe_ref -> OpticalElement) (chain : list oe_ref) :
  scan_grating els chain = None <-> forall h, h ∈ chain -> ~ matches els h.
Proof.
  unfold scan_grating, enumerate. split.
  - intros Hscan. destruct (last_match_or_none els chain) as [Hno | (g & j & Hlast)].
    + exact Hno.
    + rewrite (scan_from_last_match els chain g j 0 None Hlast) in Hscan. discriminate.
  - intros Hno. apply scan_from_no_match. exact Hno.
Qed.

(** The scan reads names only. *)
Lemma scan_grating_names (els els' : oe_ref -> OpticalElement) (chain : list oe_ref) :
  (forall h, name (els' h) = name (els h)) ->
  scan_grating els' chain = scan_grating els chain.
Proof.
  intros Hn. unfold scan_grating, enumerate.
  generalize (@None (oe_ref * nat)) as found. generalize 0%nat as i.
  induction chain as [|x l IH]; intros i found; [reflexivity|].
  cbn [enumerate_from fold_left scan_step]. rewrite Hn. apply IH.
Qed.

(** ** M1 *)

Lemma align_m1_run (chain : list oe_ref) (m1d : list (list float)) (kw : Kwargs)
    (w : World) (c2 c3 c4 : oe_ref) (d : float) :
  chain !! 2%nat = Some c2 -> chain !! 3%nat = Some c3 -> chain !! 4%nat = Some c4 ->
  m1_distance m1d kw (name (elements w c3)) d ->
  exists w',
    align_m1 chain m1d kw w = (w', inr tt)
    /\ active_chain w' = active_chain w
    /\ forall h, elements w' h = m1_elements c2 c3 c4 d (elements w) h.
Proof.
  intros H2 H3 H4 Hd. unfold align_m1, m1_distance in *.
  destruct (kwargs_get (kw_verbose kw) false); cbn [when]; run.
  all: assert (Hn : name (els2 c3) = name (elements w c3))
    by (clear; unfold_heaps; heap_lookup; fields; reflexivity).
  all: rewrite Hn; clear Hn.
  all: destruct (str_in "1B" (name (elements w c3))).
  all: try destruct Hd as (long_c & long_b & Hc & Hb & ->).
  all: try subst d.
  all: run.
  all: eexists; split; [reflexivity | split; [reflexivity |]].
  all: intros h; cbn [elements]; unfold m1_elements.
  all: unfold_heaps; heap_lookup; fields; reflexivity.
Qed.

Lemma align_m1_frame (chain : list oe_ref) (m1d : list (list float)) (kw : Kwargs)
    (w : World) :
  m1_frame chain (elements w) (elements (final_world (align_m1 chain m1d kw w))).
Proof.
  unfold align_m1.
  destruct (kwargs_get (kw_verbose kw) false); cbn [when]; run.
  all: destruct (chain !! 3%nat) as [c3|] eqn:H3; run.
  all: destruct (chain !! 2%nat) as [c2|] eqn:H2; run.
  all: destruct (chain !! 4%nat) as [c4|] eqn:H4; run.
  all: try destruct (str_in "1B" (name (els2 c3))); run.
  all: try (destruct (entry m1d 1 1) eqn:Hc; run).
  all: try (destruct (entry m1d 0 1) eqn:Hb; run).
  all: cbn [final_world fst elements].
  all: intros h; unfold_heaps.
  all: repeat split; intros; simplify_eq; heap_lookup; fields.
  all: first [reflexivity | congruence].
Qed.

(** C7.  On a chain of at least five elements whose third and fourth
    elements are distinct objects, [align_m1] completes and leaves: the
    third element's grazing angle equal to the fourth's, the third
    element's [next] on the fourth and the fourth's on the fifth, and the
    fifth element's distance at [d], where [d] is the default [dist_next]
    (5 unless given), plus [m1_distances[1][1] - m1_distances[0][1]]
    exactly when the fourth element's name contains "1B". *)
Theorem align_m1_sets (chain : list oe_ref) (m1d : list (list float)) (kw : Kwargs)
    (w : World) (c2 c3 c4 : oe_ref) (d : float) :
  chain !! 2%nat = Some c2 -> chain !! 3%nat = Some c3 -> chain !! 4%nat = Some c4 ->
  c2 <> c3 ->
  m1_distance m1d kw (name (elements w c3)) d ->
  outcome (align_m1 chain m1d kw w) = inr tt
  /\ theta (elements (final_world (align_m1 chain m1d kw w)) c2) = theta (elements w c3)
  /\ next (elements (final_world (align_m1 chain m1d kw w)) c2) = Some c3
  /\ next (elements (final_world (align_m1 chain m1d kw w)) c3) = Some c4
  /\ distance_from_previous (elements (final_world (align_m1 chain m1d kw w)) c4) = d.
Proof.
  intros H2 H3 H4 Hne Hd.
  destruct (align_m1_run chain m1d kw w c2 c3 c4 d H2 H3 H4 Hd) as (w' & Hrun & _ & Hels).
  rewrite Hrun. cbn [outcome final_world fst snd]. rewrite !Hels.
  unfold m1_elements.
  repeat split; heap_lookup; fields; reflexivity.
Qed.

(** C10.  Whatever the chain, the table and the options, and whether
    [align_m1] completes or raises part-way, the store it leaves differs
    from the one it found at most in: the grazing angle of the third
    element, the [next] of the third and fourth elements, the distance of
    the fifth element.  In particular the fourth element keeps its grazing
    angle, and its distance as long as it is not also the fifth element. *)
Theorem align_m1_writes_only (chain : list oe_ref) (m1d : list (list float))
    (kw : Kwargs) (w : World) (h : oe_ref) :
  let els := elements w in
  let els' := elements (final_world (align_m1 chain m1d kw w)) in
  name (els' h) = name (els h)
  /\ phi (els' h) = phi (els h)
  /\ order_align (els' h) = order_align (els h)
  /\ line_density (els' h) = line_density (els h)
  /\ attrs (els' h) = attrs (els h)
  /\ (chain !! 2%nat <> Some h -> theta (els' h) = theta (els h))
  /\ (chain !! 4%nat <> Some h ->
      distance_from_previous (els' h) = distance_from_previous (els h))
  /\ (chain !! 2%nat <> Some h -> chain !! 3%nat <> Some h ->
      next (els' h) = next (els h))
  /\ (chain !! 3%nat = Some h ->
      theta (els' h) = theta (els h)
      /\ (chain !! 4%nat <> Some h ->
          distance_from_previous (els' h) = distance_from_previous (els h))).
Proof.
  intros els els'. subst els els'.
  destruct (align_m1_frame chain m1d kw w h)
    as (Hname & Hphi & Horder & Hdensity & Hattrs & Htheta & Hdist & Hnext & Hfourth).
  repeat split; try assumption.
  apply Hfourth. assumption.
Qed.

(** ** Undulators *)

Lemma align_undulator_run (chain : list oe_ref) (wavelength : float) (kw : Kwargs)
    (w : World) (c0 c1 : oe_ref) (source' : OpticalElement) (d : float) :
  chain !! 0%nat = Some c0 -> chain !! 1%nat = Some c1 ->
  set_undulator wavelength kw (elements w c0) = inr source' ->
  undulator_distance kw (name source') d ->
  exists w',
    align_undulator chain wavelength kw w = (w', inr tt)
    /\ active_chain w' = active_chain w
    /\ forall h, elements w' h = undulator_elements c0 c1 source' d (elements w) h.
Proof.
  intros H0 H1 Hsrc Hd. unfold align_undulator, undulator_distance, long_pos in *.
  destruct (kwargs_get (kw_verbose kw) false); cbn [when]; run.
  all: rewrite (run_call_on c0 _ source' tt)
    by (cbn beta; cbn [elements]; rewrite Hsrc; reflexivity).
  all: cbn beta; cbn [elements chains active_chain stdout]; name_heap; run.
  all: assert (Hn : name (els0 c0) = name source')
    by (clear; unfold_heaps; heap_lookup; fields; reflexivity).
  all: rewrite Hn; clear Hn.
  all: destruct (str_in "65" (name source')).
  all: try destruct Hd as (long2 & long1 & Hl2 & Hl1 & ->).
  all: try subst d.
  all: run.
  all: eexists; split; [reflexivity | split; [reflexivity |]].
  all: intros h; cbn [elements]; unfold undulator_elements.
  all: unfold_heaps; heap_lookup; fields; reflexivity.
Qed.

(** C6.  On a chain with a source and a second element, when the source
    model returns, [align_undulator] completes and leaves the second
    element's distance at [d]: the default [dist_slit] (21 unless given),
    minus the difference of the DEIMOS_2 and DEIMOS_1 [Long_Pos(m)]
    entries exactly when the source's name contains "65". *)
Theorem align_undulator_sets (chain : list oe_ref) (wavelength : float) (kw : Kwargs)
    (w : World) (c0 c1 : oe_ref) (source' : OpticalElement) (d : float) :
  chain !! 0%nat = Some c0 -> chain !! 1%nat = Some c1 ->
  set_undulator wavelength kw (elements w c0) = inr source' ->
  undulator_distance kw (name source') d ->
  outcome (align_undulator chain wavelength kw w) = inr tt
  /\ distance_from_previous
       (elements (final_world (align_undulator chain wavelength kw w)) c1) = d.
Proof.
  intros H0 H1 Hsrc Hd.
  destruct (align_undulator_run chain wavelength kw w c0 c1 source' d H0 H1 Hsrc Hd)
    as (w' & Hrun & _ & Hels).
  rewrite Hrun. cbn [outcome final_world fst snd]. rewrite Hels.
  unfold undulator_elements. split; [reflexivity|].
  heap_lookup; fields; reflexivity.
Qed.

(** ** Monochromator *)

Lemma run_scan {B : Type} (chain : list oe_ref) (k : option (oe_ref * nat) -> M B)
    (w : World) :
  bind (scan_for_grating chain) k w = k (scan_grating (elements w) chain) w.
Proof. reflexivity. Qed.

Lemma align_mono_no_grating (chain : list oe_ref) (wavelength : float)
    (condition : string) (value GM2 GM3 : float) (kw : Kwargs) (w : World) :
  scan_grating (elements w) chain = None ->
  align_mono chain wavelength condition value GM2 GM3 kw w
  = (w, inl (ValueError no_grating_message)).
Proof.
  intros Hscan. unfold align_mono. rewrite run_scan, Hscan. reflexivity.
Qed.

Lemma align_mono_run (chain : list oe_ref) (wavelength : float)
    (condition : string) (value GM2 GM3 : float) (kw : Kwargs) (w : World)
    (g : oe_ref) (p : nat) (order : Z) (density : float)
    (g' : OpticalElement) (gd : gdict) (a b : oe_ref) :
  scan_grating (elements w) chain = Some (g, p) ->
  order_align (elements w g) = Some order ->
  line_density (elements w g) = Some density ->
  align_grating (elements w g) condition value wavelength order density = inr (g', gd) ->
  chain !! (p + 1)%nat = Some a -> chain !! (p + 2)%nat = Some b ->
  active_chain (final_world (align_mono chain wavelength condition value GM2 GM3 kw w))
  = active_chain w
  /\ (forall h,
        elements (final_world (align_mono chain wavelength condition value GM2 GM3 kw w)) h
        = mono_elements g g' a b gd GM2 GM3 (elements w) h)
  /\ (kwargs_get (kw_verbose kw) false = false \/ PrimFloat.eqb wavelength 0 = false ->
      outcome (align_mono chain wavelength condition value GM2 GM3 kw w) = inr tt)
  /\ (kwargs_get (kw_verbose kw) false = true -> PrimFloat.eqb wavelength 0 = true ->
      outcome (align_mono chain wavelength condition value GM2 GM3 kw w)
      = inl ZeroDivisionError).
Proof.
  intros Hscan Horder Hdensity Hsolve Ha Hb. unfold align_mono.
  rewrite run_scan, Hscan.
  rewrite (run_getattr_opt g order_align _ order) by exact Horder.
  rewrite (run_getattr_opt g line_density _ density) by exact Hdensity.
  rewrite (run_call_on g _ g' gd) by exact Hsolve.
  cbn beta; cbn [elements chains active_chain stdout]; name_heap; run.
  destruct (kwargs_get (kw_verbose kw) false); cbn [when]; run.
  - destruct (String.eqb condition "omega"); cbn [when]; run.
    all: destruct (PrimFloat.eqb wavelength 0) eqn:Hzero; run.
    all: cbn [final_world outcome fst snd elements active_chain].
    all: split; [reflexivity | split; [| split; [intros [? | ?] | intros]; congruence]].
    all: intros h; unfold mono_elements, gm2_distance, m2m3_distance.
    all: unfold_heaps; reflexivity.
  - cbn [final_world outcome fst snd elements active_chain].
    split; [reflexivity | split; [| split; [reflexivity | discriminate]]].
    intros h; unfold mono_elements, gm2_distance, m2m3_distance.
    unfold_heaps; reflexivity.
Qed.

Lemma align_mono_found (chain : list oe_ref) (wavelength : float)
    (condition : string) (value GM2 GM3 : float) (kw : Kwargs) (w : World)
    (g : oe_ref) (p : nat) (msg : string) :
  scan_grating (elements w) chain = Some (g, p) ->
  outcome (align_mono chain wavelength condition value GM2 GM3 kw w)
  <> inl (ValueError msg).
Proof.
  intros Hscan. unfold align_mono. rewrite run_scan, Hscan.
  destruct (order_align (elements w g)) as [order|] eqn:Horder;
    [rewrite (run_getattr_opt g order_align _ order) by exact Horder
    |rewrite (run_getattr_opt_none g order_align) by exact Horder; discriminate].
  destruct (line_density (elements w g)) as [density|] eqn:Hdensity;
    [rewrite (run_getattr_opt g line_density _ density) by exact Hdensity
    |rewrite (run_getattr_opt_none g line_density) by exact Hdensity; discriminate].
  destruct (align_grating (elements w g) condition value wavelength order density)
    as [failure | [g' gd]] eqn:Hsolve;
    [rewrite (run_call_on_fails g _ failure) by exact Hsolve; discriminate
    |rewrite (run_call_on g _ g' gd) by exact Hsolve].
  cbn beta; cbn [elements chains active_chain stdout]; name_heap.
  destruct (chain !! (p + 1)%nat) as [a|] eqn:Ha; run; [|discriminate].
  destruct (chain !! (p + 2)%nat) as [b|] eqn:Hb; run; [|discriminate].
  destruct (kwargs_get (kw_verbose kw) false); cbn [when]; run; [|discriminate].
  destruct (String.eqb condition "omega"); cbn [when]; run.
  all: destruct (PrimFloat.eqb wavelength 0) eqn:Hzero; run; discriminate.
Qed.

(** C1.  When the scan locates the grating at position [p] and the solver
    returns the angles [gd], [align_mono] leaves the element at position
    [p+1] with grazing angle [deviation/2] and distance
    [GM2_trans_dist/np.sin(deviation)], and the element at position [p+2]
    with distance [GM3_proj_dist - GM2_trans_dist/np.tan(deviation)].
    (The two elements are distinct objects; the grating carries an order
    and a line density.) *)
Theorem align_mono_sets (chain : list oe_ref) (wavelength : float)
    (condition : string) (value GM2 GM3 : float) (kw : Kwargs) (w : World)
    (g : oe_ref) (p : nat) (order : Z) (density : float)
    (g' : OpticalElement) (gd : gdict) (a b : oe_ref) :
  scan_grating (elements w) chain = Some (g, p) ->
  order_align (elements w g) = Some order ->
  line_density (elements w g) = Some density ->
  align_grating (elements w g) condition value wavelength order density = inr (g', gd) ->
  chain !! (p + 1)%nat = Some a -> chain !! (p + 2)%nat = Some b ->
  a <> b ->
  let w' := final_world (align_mono chain wavelength condition value GM2 GM3 kw w) in
  theta (elements w' a) = (deviation gd / 2)%float
  /\ distance_from_previous (elements w' a) = (GM2 / np_sin (deviation gd))%float
  /\ distance_from_previous (elements w' b)
     = (GM3 - (GM2 / np_tan (deviation gd)))%float.
Proof.
  intros Hscan Horder Hdensity Hsolve Ha Hb Hab w'. subst w'.
  destruct (align_mono_run chain wavelength condition value GM2 GM3 kw w
              g p order density g' gd a b Hscan Horder Hdensity Hsolve Ha Hb)
    as (_ & Hels & _ & _).
  rewrite !Hels. unfold mono_elements, gm2_distance, m2m3_distance.
  repeat split; heap_lookup; fields; reflexivity.
Qed.

(** C8.  The scan also takes a name that contains "reseau", in any case,
    and it keeps the last match: when [g] at position [p] matches and no
    later element does, whatever comes before, [g] is the element handed
    to the solver and the angle and distances go to the elements at [p+1]
    and [p+2]; every element other than these three is left as it was, an
    earlier match included. *)
Theorem align_mono_takes_last_match (chain : list oe_ref) (wavelength : float)
    (condition : string) (value GM2 GM3 : float) (kw : Kwargs) (w : World)
    (g : oe_ref) (p : nat) (order : Z) (density : float)
    (g' : OpticalElement) (gd : gdict) (a b : oe_ref) :
  chain !! p = Some g ->
  str_in "reseau" (lower (name (elements w g))) = true
  \/ str_in "grating" (lower (name (elements w g))) = true ->
  (forall j h, (p < j)%nat -> chain !! j = Some h -> ~ matches (elements w) h) ->
  order_align (elements w g) = Some order ->
  line_density (elements w g) = Some density ->
  align_grating (elements w g) condition value wavelength order density = inr (g', gd) ->
  chain !! (p + 1)%nat = Some a -> chain !! (p + 2)%nat = Some b ->
  let w' := final_world (align_mono chain wavelength condition value GM2 GM3 kw w) in
  scan_grating (elements w) chain = Some (g, p)
  /\ (g <> a -> g <> b -> elements w' g = g')
  /\ (a <> b ->
      theta (elements w' a) = (deviation gd / 2)%float
      /\ distance_from_previous (elements w' a) = (GM2 / np_sin (deviation gd))%float)
  /\ distance_from_previous (elements w' b)
     = (GM3 - (GM2 / np_tan (deviation gd)))%float
  /\ (forall h, h <> g -> h <> a -> h <> b -> elements w' h = elements w h).
Proof.
  intros Hp Hname Hlater Horder Hdensity Hsolve Ha Hb w'. subst w'.
  assert (Hscan : scan_grating (elements w) chain = Some (g, p)).
  { apply scan_grating_last_match. split; [exact Hp | split; [| exact Hlater]].
    unfold matches, is_grating_name.
    destruct Hname as [-> | ->]; [reflexivity | apply orb_true_r]. }
  destruct (align_mono_run chain wavelength condition value GM2 GM3 kw w
              g p order density g' gd a b Hscan Horder Hdensity Hsolve Ha Hb)
    as (_ & Hels & _ & _).
  split; [exact Hscan |].
  repeat split; intros; rewrite !Hels;
    unfold mono_elements, gm2_distance, m2m3_distance;
    heap_lookup; fields; first [reflexivity | congruence].
Qed.

(** C2, amended.  [align_mono] ends with the configuration error exactly
    when no element of the path has a name that contains "reseau" or
    "grating" (in any case).  When the scan finds a grating that carries
    an order and a line density, the solver returns, the two following
    positions exist, and the verbose report is off or the wavelength is
    not zero, [align_mono] raises nothing, whatever the deviation angle,
    and the two distances are assigned as the divisions give them. *)
Theorem align_mono_raises (chain : list oe_ref) (wavelength : float)
    (condition : string) (value GM2 GM3 : float) (kw : Kwargs) (w : World) :
  let r := align_mono chain wavelength condition value GM2 GM3 kw w in
  (outcome r = inl (ValueError no_grating_message)
   <-> forall h, h ∈ chain -> ~ matches (elements w) h)
  /\ forall g p order density g' gd a b,
      scan_grating (elements w) chain = Some (g, p) ->
      order_align (elements w g) = Some order ->
      line_density (elements w g) = Some density ->
      align_grating (elements w g) condition value wavelength order density
      = inr (g', gd) ->
      chain !! (p + 1)%nat = Some a -> chain !! (p + 2)%nat = Some b ->
      kwargs_get (kw_verbose kw) false = false \/ PrimFloat.eqb wavelength 0 = false ->
      outcome r = inr tt
      /\ (a <> b ->
          distance_from_previous (elements (final_world r) a)
          = (GM2 / np_sin (deviation gd))%float)
      /\ distance_from_previous (elements (final_world r) b)
         = (GM3 - (GM2 / np_tan (deviation gd)))%float.
Proof.
  intros r. subst r. split.
  - split.
    + intros Hout. apply scan_grating_none.
      destruct (scan_grating (elements w) chain) as [[g p]|] eqn:Hscan; [|reflexivity].
      exfalso.
      exact (align_mono_found chain wavelength condition value GM2 GM3 kw w g p
               no_grating_message Hscan Hout).
    + intros Hno. apply scan_grating_none in Hno.
      rewrite (align_mono_no_grating _ _ _ _ _ _ _ _ Hno). reflexivity.
  - intros g p order density g' gd a b Hscan Horder Hdensity Hsolve Ha Hb Hquiet.
    destruct (align_mono_run chain wavelength condition value GM2 GM3 kw w
                g p order density g' gd a b Hscan Horder Hdensity Hsolve Ha Hb)
      as (_ & Hels & Hout & _).
    split; [exact (Hout Hquiet) |].
    split; intros; rewrite !Hels;
      unfold mono_elements, gm2_distance, m2m3_distance;
      heap_lookup; fields; reflexivity.
Qed.

(** ** The alignment procedure *)

Lemma run_get_active_chain {B : Type} (k : list oe_ref -> M B) (w : World) :
  bind get_active_chain k w = k (active_chain w) w.
Proof. reflexivity. Qed.

(** [align_call] is the three steps in a row, each on the active chain. *)
Lemma align_call_steps (alignment_wvl emission_wvl : float) (condition : string)
    (value : float) (m1d : list (list float)) (GM2 GM3 : float) (kw : Kwargs)
    (w : World) :
  align_call alignment_wvl emission_wvl condition value m1d GM2 GM3 kw w
  = match align_undulator (active_chain w) emission_wvl kw w with
    | (w1, inr _) =>
        match align_m1 (active_chain w1) m1d kw w1 with
        | (w2, inr _) =>
            align_mono (active_chain w2) alignment_wvl condition value GM2 GM3 kw w2
        | (w2, inl e) => (w2, inl e)
        end
    | (w1, inl e) => (w1, inl e)
    end.
Proof. reflexivity. Qed.

(** What a completed step says about its input. *)
Lemma align_undulator_inv (chain : list oe_ref) (wavelength : float) (kw : Kwargs)
    (w w' : World) :
  align_undulator chain wavelength kw w = (w', inr tt) ->
  exists c0 c1 source' d,
    chain !! 0%nat = Some c0 /\ chain !! 1%nat = Some c1
    /\ set_undulator wavelength kw (elements w c0) = inr source'
    /\ undulator_distance kw (name source') d.
Proof.
  unfold align_undulator, undulator_distance, long_pos.
  destruct (kwargs_get (kw_verbose kw) false); cbn [when]; run.
  all: destruct (chain !! 0%nat) as [c0|] eqn:H0; run; [|discriminate].
  all: destruct (set_undulator wavelength kw (elements w c0)) as [msg|source'] eqn:Hsrc;
    [rewrite (run_call_on_fails c0 _ msg)
       by (cbn beta; cbn [elements]; rewrite Hsrc; reflexivity); discriminate
    |rewrite (run_call_on c0 _ source' tt)
       by (cbn beta; cbn [elements]; rewrite Hsrc; reflexivity)].
  all: cbn beta; cbn [elements chains active_chain stdout]; name_heap.
  all: destruct (chain !! 1%nat) as [c1|] eqn:H1; run; [|discriminate].
  all: assert (Hn : name (els0 c0) = name source')
    by (clear; unfold_heaps; heap_lookup; fields; reflexivity).
  all: rewrite Hn; clear Hn.
  all: destruct (str_in "65" (name source')) eqn:H65; run.
  all: try (destruct (long_pos_rows "DEIMOS_2" !! 0%nat) as [long2|] eqn:Hl2; run;
            [|discriminate]).
  all: try (destruct (long_pos_rows "DEIMOS_1" !! 0%nat) as [long1|] eqn:Hl1; run;
            [|discriminate]).
  all: intros _; exists c0, c1, source'; eexists.
  all: repeat (split; [first [assumption | reflexivity] |]).
  all: rewrite H65; eauto.
Qed.

Lemma align_m1_inv (chain : list oe_ref) (m1d : list (list float)) (kw : Kwargs)
    (w w' : World) :
  align_m1 chain m1d kw w = (w', inr tt) ->
  exists c2 c3 c4 d,
    chain !! 2%nat = Some c2 /\ chain !! 3%nat = Some c3 /\ chain !! 4%nat = Some c4
    /\ m1_distance m1d kw (name (elements w c3)) d.
Proof.
  unfold align_m1, m1_distance.
  destruct (kwargs_get (kw_verbose kw) false); cbn [when]; run.
  all: destruct (chain !! 3%nat) as [c3|] eqn:H3; run; [|discriminate].
  all: destruct (chain !! 2%nat) as [c2|] eqn:H2; run; [|discriminate].
  all: destruct (chain !! 4%nat) as [c4|] eqn:H4; run; [|discriminate].
  all: assert (Hn : name (els2 c3) = name (elements w c3))
    by (clear; unfold_heaps; heap_lookup; fields; reflexivity).
  all: rewrite Hn; clear Hn.
  all: destruct (str_in "1B" (name (elements w c3))) eqn:H1B; run.
  all: try (destruct (entry m1d 1 1) as [long_c|] eqn:Hc; run; [|discriminate]).
  all: try (destruct (entry m1d 0 1) as [long_b|] eqn:Hb; run; [|discriminate]).
  all: intros _; exists c2, c3, c4; eexists.
  all: repeat (split; [first [assumption | reflexivity] |]).
  all: rewrite H1B; eauto.
Qed.

Lemma align_mono_inv (chain : list oe_ref) (wavelength : float)
    (condition : string) (value GM2 GM3 : float) (kw : Kwargs) (w w' : World) :
  align_mono chain wavelength condition value GM2 GM3 kw w = (w', inr tt) ->
  exists g p order density g' gd a b,
    scan_grating (elements w) chain = Some (g, p)
    /\ order_align (elements w g) = Some order
    /\ line_density (elements w g) = Some density
    /\ align_grating (elements w g) condition value wavelength order density
       = inr (g', gd)
    /\ chain !! (p + 1)%nat = Some a /\ chain !! (p + 2)%nat = Some b.
Proof.
  unfold align_mono. rewrite run_scan.
  destruct (scan_grating (elements w) chain) as [[g p]|] eqn:Hscan; [|discriminate].
  destruct (order_align (elements w g)) as [order|] eqn:Horder;
    [rewrite (run_getattr_opt g order_align _ order) by exact Horder
    |rewrite (run_getattr_opt_none g order_align) by exact Horder; discriminate].
  destruct (line_density (elements w g)) as [density|] eqn:Hdensity;
    [rewrite (run_getattr_opt g line_density _ density) by exact Hdensity
    |rewrite (run_getattr_opt_none g line_density) by exact Hdensity; discriminate].
  destruct (align_grating (elements w g) condition value wavelength order density)
    as [failure | [g' gd]] eqn:Hsolve;
    [rewrite (run_call_on_fails g _ failure) by exact Hsolve; discriminate
    |rewrite (run_call_on g _ g' gd) by exact Hsolve].
  cbn beta; cbn [elements chains active_chain stdout]; name_heap.
  destruct (chain !! (p + 1)%nat) as [a|] eqn:Ha; run; [|discriminate].
  destruct (chain !! (p + 2)%nat) as [b|] eqn:Hb; run; [|discriminate].
  intros _. exists g, p, order, density, g', gd, a, b.
  repeat (split; [first [assumption | reflexivity] |]).
  first [assumption | reflexivity].
Qed.

Lemma align_undulator_done (chain : list oe_ref) (wavelength : float) (kw : Kwargs)
    (w w' : World) :
  align_undulator chain wavelength kw w = (w', inr tt) ->
  exists c0 c1 source' d,
    chain !! 0%nat = Some c0 /\ chain !! 1%nat = Some c1
    /\ set_undulator wavelength kw (elements w c0) = inr source'
    /\ undulator_distance kw (name source') d
    /\ active_chain w' = active_chain w
    /\ forall h, elements w' h = undulator_elements c0 c1 source' d (elements w) h.
Proof.
  intros Hdone.
  destruct (align_undulator_inv _ _ _ _ _ Hdone) as (c0 & c1 & source' & d & H0 & H1 & Hsrc & Hd).
  destruct (align_undulator_run chain wavelength kw w c0 c1 source' d H0 H1 Hsrc Hd)
    as (w'' & Hrun & Hchain & Hels).
  rewrite Hdone in Hrun. injection Hrun as <-.
  exists c0, c1, source', d. auto 10.
Qed.

Lemma align_m1_done (chain : list oe_ref) (m1d : list (list float)) (kw : Kwargs)
    (w w' : World) :
  align_m1 chain m1d kw w = (w', inr tt) ->
  exists c2 c3 c4 d,
    chain !! 2%nat = Some c2 /\ chain !! 3%nat = Some c3 /\ chain !! 4%nat = Some c4
    /\ m1_distance m1d kw (name (elements w c3)) d
    /\ active_chain w' = active_chain w
    /\ forall h, elements w' h = m1_elements c2 c3 c4 d (elements w) h.
Proof.
  intros Hdone.
  destruct (align_m1_inv _ _ _ _ _ Hdone) as (c2 & c3 & c4 & d & H2 & H3 & H4 & Hd).
  destruct (align_m1_run chain m1d kw w c2 c3 c4 d H2 H3 H4 Hd)
    as (w'' & Hrun & Hchain & Hels).
  rewrite Hdone in Hrun. injection Hrun as <-.
  exists c2, c3, c4, d. auto 10.
Qed.

Lemma align_mono_done (chain : list oe_ref) (wavelength : float)
    (condition : string) (value GM2 GM3 : float) (kw : Kwargs) (w w' : World) :
  align_mono chain wavelength condition value GM2 GM3 kw w = (w', inr tt) ->
  exists g p order density g' gd a b,
    scan_grating (elements w) chain = Some (g, p)
    /\ order_align (elements w g) = Some order
    /\ line_density (elements w g) = Some density
    /\ align_grating (elements w g) condition value wavelength order density
       = inr (g', gd)
    /\ chain !! (p + 1)%nat = Some a /\ chain !! (p + 2)%nat = Some b
    /\ active_chain w' = active_chain w
    /\ (forall h, elements w' h = mono_elements g g' a b gd GM2 GM3 (elements w) h)
    /\ (kwargs_get (kw_verbose kw) false = false \/ PrimFloat.eqb wavelength 0 = false).
Proof.
  intros Hdone.
  destruct (align_mono_inv _ _ _ _ _ _ _ _ _ Hdone)
    as (g & p & order & density & g' & gd & a & b & Hscan & Ho & Hd & Hsolve & Ha & Hb).
  destruct (align_mono_run chain wavelength condition value GM2 GM3 kw w
              g p order density g' gd a b Hscan Ho Hd Hsolve Ha Hb)
    as (Hchain & Hels & _ & Hloud).
  rewrite Hdone in Hchain, Hels, Hloud. cbn [final_world outcome fst snd] in *.
  exists g, p, order, density, g', gd, a, b.
  repeat (split; [assumption |]).
  destruct (kwargs_get (kw_verbose kw) false); [| left; reflexivity].
  destruct (PrimFloat.eqb wavelength 0); [| right; reflexivity].
  discriminate (Hloud eq_refl eq_refl).
Qed.

(** None of the three steps renames an element, as long as the source
    model and the solver do not. *)
Lemma name_undulator_elements (c0 c1 : oe_ref) (source' : OpticalElement) (d : float)
    (els : oe_ref -> OpticalElement) (h : oe_ref) :
  name source' = name (els c0) ->
  name (undulator_elements c0 c1 source' d els h) = name (els h).
Proof.
  intros Hn. unfold undulator_elements. heap_lookup; fields; congruence.
Qed.

Lemma name_m1_elements (c2 c3 c4 : oe_ref) (d : float)
    (els : oe_ref -> OpticalElement) (h : oe_ref) :
  name (m1_elements c2 c3 c4 d els h) = name (els h).
Proof. unfold m1_elements. heap_lookup; fields; reflexivity. Qed.

Lemma name_mono_elements (g : oe_ref) (g' : OpticalElement) (a b : oe_ref) (gd : gdict)
    (GM2 GM3 : float) (els : oe_ref -> OpticalElement) (h : oe_ref) :
  name g' = name (els g) ->
  name (mono_elements g g' a b gd GM2 GM3 els h) = name (els h).
Proof.
  intros Hn. unfold mono_elements. heap_lookup; fields; congruence.
Qed.

(** C4, amended.  On a path none of whose elements has a grating name,
    with a source model that leaves the source's name alone, [align_call]
    ends with the configuration error once the undulator and M1 steps have
    run: when these two complete, the world the call ends in is the one
    they produced.  The monochromator step assigns nothing. *)
Theorem align_call_without_grating (alignment_wvl emission_wvl : float)
    (condition : string) (value : float) (m1d : list (list float))
    (GM2 GM3 : float) (kw : Kwargs) (w w1 w2 : World) :
  (forall e e', set_undulator emission_wvl kw e = inr e' -> name e' = name e) ->
  (forall h, h ∈ active_chain w -> ~ matches (elements w) h) ->
  align_undulator (active_chain w) emission_wvl kw w = (w1, inr tt) ->
  align_m1 (active_chain w) m1d kw w1 = (w2, inr tt) ->
  align_call alignment_wvl emission_wvl condition value m1d GM2 GM3 kw w
  = (w2, inl (ValueError no_grating_message)).
Proof.
  intros Hkeep Hno Hund Hm1.
  rewrite align_call_steps, Hund.
  apply align_undulator_done in Hund
    as (c0 & c1 & source' & d1 & _ & _ & Hsrc & _ & Hchain1 & Hels1).
  rewrite Hchain1, Hm1.
  apply align_m1_done in Hm1 as (c2 & c3 & c4 & d4 & _ & _ & _ & _ & Hchain2 & Hels2).
  rewrite Hchain2, Hchain1.
  apply align_mono_no_grating, scan_grating_none.
  intros h Hh. unfold matches.
  rewrite Hels2, name_m1_elements, Hels1, name_undulator_elements
    by exact (Hkeep _ _ Hsrc).
  exact (Hno h Hh).
Qed.


(** ** Running the alignment twice *)

Lemma with_distance_same (e : OpticalElement) (d : float) :
  distance_from_previous e = d -> with_distance d e = e.
Proof. destruct e. cbn. intros ->. reflexivity. Qed.

(** Different positions of a path without repetition hold different
    elements. *)
Ltac distinct_refs Hnd :=
  repeat match goal with
    | Hx : ?l !! ?i = Some ?x, Hy : ?l !! ?j = Some ?y |- _ =>
        lazymatch i with j => fail | _ => idtac end;
        lazymatch goal with
        | _ : x <> y |- _ => fail
        | _ =>
            assert (x <> y)
              by (intros ->; pose proof (NoDup_lookup l i j y Hnd Hx Hy); lia)
        end
    end.

(** The store behind one, two or three completed steps. *)
Ltac through :=
  repeat first
    [ match goal with
      | H : forall h, elements ?w h = _ |- context [elements ?w _] => rewrite H
      end
    | progress unfold mono_elements, m1_elements, undulator_elements
    | progress heap_lookup
    | progress fields ].

(** C5.  On a path of distinct elements whose first four are not named
    as gratings, with re-entrant collaborators: if [align_call] completes,
    a second call with the same arguments completes as well and leaves
    every element exactly as the first call left it. *)
Theorem align_call_twice (alignment_wvl emission_wvl : float)
    (condition : string) (value : float) (m1d : list (list float))
    (GM2 GM3 : float) (kw : Kwargs) (w w1 : World) :
  NoDup (active_chain w) ->
  (forall i h, (i < 4)%nat -> active_chain w !! i = Some h -> ~ matches (elements w) h) ->
  stable_source ->
  stable_solver ->
  align_call alignment_wvl emission_wvl condition value m1d GM2 GM3 kw w = (w1, inr tt) ->
  exists w2,
    align_call alignment_wvl emission_wvl condition value m1d GM2 GM3 kw w1 = (w2, inr tt)
    /\ forall h, elements w2 h = elements w1 h.
Proof.
  intros Hnd Hlayout Hsource Hsolver Hfirst.
  rewrite align_call_steps in Hfirst.
  destruct (align_undulator (active_chain w) emission_wvl kw w)
    as [wa [e|[]]] eqn:Hund; [discriminate|].
  apply align_undulator_done in Hund
    as (c0 & c1 & source' & d1 & H0 & H1 & Hsrc & Hd1 & Hchain_a & Hels_a).
  rewrite Hchain_a in Hfirst.
  destruct (align_m1 (active_chain w) m1d kw wa) as [wb [e|[]]] eqn:Hm1; [discriminate|].
  apply align_m1_done in Hm1
    as (c2 & c3 & c4 & d4 & H2 & H3 & H4 & Hd4 & Hchain_b & Hels_b).
  rewrite Hchain_b, Hchain_a in Hfirst.
  pose proof Hfirst as Hmono.
  apply align_mono_done in Hmono
    as (g & p & order & density & g' & gd & a & b
        & Hscan & Horder & Hdensity & Hsolve & Ha & Hb & Hchain_1 & Hels_1 & Hquiet).
  rewrite Hchain_b, Hchain_a in Hchain_1.
  destruct (Hsource _ _ _ _ Hsrc) as [Hname_src Hsrc'].
  destruct (Hsolver _ _ _ _ _ _ _ _ Hsolve)
    as (Hname_g & Hdist_g & Horder_g & Hdensity_g & Hsolve').
  (* names are those of the start *)
  assert (Hnames_a : forall h, name (elements wa h) = name (elements w h)).
  { intros h. rewrite Hels_a. apply name_undulator_elements. exact Hname_src. }
  assert (Hnames_b : forall h, name (elements wb h) = name (elements w h)).
  { intros h. rewrite Hels_b, name_m1_elements. apply Hnames_a. }
  assert (Hnames_1 : forall h, name (elements w1 h) = name (elements w h)).
  { intros h. rewrite Hels_1, name_mono_elements by exact Hname_g. apply Hnames_b. }
  (* the grating sits after the M1 pair *)
  apply scan_grating_last_match in Hscan as Hlast.
  destruct Hlast as (Hp & Hmatch & _).
  assert (Hp4 : (4 <= p)%nat).
  { destruct (le_lt_dec 4 p) as [|Hlt]; [assumption|]. exfalso.
    apply (Hlayout p g Hlt Hp). unfold matches in *. rewrite <- Hnames_b. exact Hmatch. }
  (* the second call, step by step *)
  assert (Hnames_src1 : name source' = name (elements w1 c0))
    by (rewrite Hnames_1; exact Hname_src).
  assert (Hd4' : m1_distance m1d kw (name (elements w c3)) d4)
    by (rewrite <- Hnames_a; exact Hd4).
  (* the elements of the path are pairwise distinct *)
  assert (Hg4 : p = 4%nat /\ g = c4 \/ g <> c4).
  { destruct (decide (p = 4%nat)) as [-> | Hne].
    - left. split; [reflexivity | congruence].
    - right. intros ->. pose proof (NoDup_lookup _ _ _ _ Hnd Hp H4). lia. }
  destruct Hg4 as [[-> ->] | Hg4]; [clear Hp|]; distinct_refs Hnd.
  all: assert (Hsrc1 : set_undulator emission_wvl kw (elements w1 c0) = inr source')
    by (through; exact Hsrc').
  all: destruct (align_undulator_run (active_chain w) emission_wvl kw w1
                   c0 c1 source' d1 H0 H1 Hsrc1 Hd1)
    as (wa2 & Hund2 & Hchain_a2 & Hels_a2).
  all: assert (Hnames_a2 : forall h, name (elements wa2 h) = name (elements w h))
    by (intros h; rewrite Hels_a2, name_undulator_elements by exact Hnames_src1;
        apply Hnames_1).
  all: assert (Hd42 : m1_distance m1d kw (name (elements wa2 c3)) d4)
    by (rewrite Hnames_a2; exact Hd4').
  all: destruct (align_m1_run (active_chain w) m1d kw wa2 c2 c3 c4 d4 H2 H3 H4 Hd42)
    as (wb2 & Hm12 & Hchain_b2 & Hels_b2).
  all: assert (Hnames_b2 : forall h, name (elements wb2 h) = name (elements wb h))
    by (intros h; rewrite Hels_b2, name_m1_elements, Hnames_a2, Hnames_b; reflexivity).
  all: pose proof (scan_grating_names _ _ (active_chain w) Hnames_b2) as Hscan2.
  all: rewrite Hscan in Hscan2.
  - (* the grating is the fifth element *)
    assert (Hg2 : elements wb2 c4 = g').
    { through. apply with_distance_same. rewrite Hdist_g. through. reflexivity. }
    assert (Horder2 : order_align (elements wb2 c4) = Some order)
      by (rewrite Hg2, Horder_g; exact Horder).
    assert (Hdensity2 : line_density (elements wb2 c4) = Some density)
      by (rewrite Hg2, Hdensity_g; exact Hdensity).
    assert (Hsolve2 : align_grating (elements wb2 c4) condition value alignment_wvl
                                    order density = inr (g', gd))
      by (rewrite Hg2; exact Hsolve').
    destruct (align_mono_run (active_chain w) alignment_wvl condition value GM2 GM3 kw
                wb2 c4 4 order density g' gd a b
                Hscan2 Horder2 Hdensity2 Hsolve2 Ha Hb)
      as (_ & Hels_2 & Hout2 & _).
    specialize (Hout2 Hquiet).
    exists (final_world (align_mono (active_chain w) alignment_wvl condition value
                                    GM2 GM3 kw wb2)).
    split.
    + rewrite align_call_steps, Hchain_1, Hund2, Hchain_a2, Hchain_1, Hm12,
        Hchain_b2, Hchain_a2, Hchain_1.
      revert Hout2. clear.
      destruct (align_mono (active_chain w) alignment_wvl condition value GM2 GM3 kw wb2)
        as [w2 r2].
      cbn [outcome final_world fst snd]. intros ->. reflexivity.
    + intros h. rewrite Hels_2. through; reflexivity.
  - (* the grating comes later *)
    assert (Hg2 : elements wb2 g = g') by (through; reflexivity).
    assert (Horder2 : order_align (elements wb2 g) = Some order)
      by (rewrite Hg2, Horder_g; exact Horder).
    assert (Hdensity2 : line_density (elements wb2 g) = Some density)
      by (rewrite Hg2, Hdensity_g; exact Hdensity).
    assert (Hsolve2 : align_grating (elements wb2 g) condition value alignment_wvl
                                    order density = inr (g', gd))
      by (rewrite Hg2; exact Hsolve').
    destruct (align_mono_run (active_chain w) alignment_wvl condition value GM2 GM3 kw
                wb2 g p order density g' gd a b
                Hscan2 Horder2 Hdensity2 Hsolve2 Ha Hb)
      as (_ & Hels_2 & Hout2 & _).
    specialize (Hout2 Hquiet).
    exists (final_world (align_mono (active_chain w) alignment_wvl condition value
                                    GM2 GM3 kw wb2)).
    split.
    + rewrite align_call_steps, Hchain_1, Hund2, Hchain_a2, Hchain_1, Hm12,
        Hchain_b2, Hchain_a2, Hchain_1.
      revert Hout2. clear.
      destruct (align_mono (active_chain w) alignment_wvl condition value GM2 GM3 kw wb2)
        as [w2 r2].
      cbn [outcome final_world fst snd]. intros ->. reflexivity.
    + intros h. rewrite Hels_2. through; reflexivity.
Qed.

(** ** What the steps leave alone *)

Lemma align_undulator_any (chain : list oe_ref) (wavelength : float) (kw : Kwargs)
    (w : World) :
  let w' := final_world (align_undulator chain wavelength kw w) in
  active_chain w' = active_chain w
  /\ chains w' = chains w
  /\ (kwargs_get (kw_verbose kw) false = false -> stdout w' = stdout w)
  /\ (forall h, chain !! 0%nat <> Some h -> chain !! 1%nat <> Some h ->
        elements w' h = elements w h)
  /\ (forall h, chain !! 0%nat <> Some h ->
        name (elements w' h) = name (elements w h)
        /\ theta (elements w' h) = theta (elements w h)
        /\ phi (elements w' h) = phi (elements w h)
        /\ next (elements w' h) = next (elements w h)
        /\ order_align (elements w' h) = order_align (elements w h)
        /\ line_density (elements w' h) = line_density (elements w h)
        /\ attrs (elements w' h) = attrs (elements w h)).
Proof.
  unfold align_undulator, long_pos.
  destruct (kwargs_get (kw_verbose kw) false); cbn [when]; run.
  all: destruct (chain !! 0%nat) as [c0|] eqn:H0; run.
  all: try (destruct (set_undulator wavelength kw (elements w c0)) as [msg|source'] eqn:Hsrc;
            [rewrite (run_call_on_fails c0 _ msg)
               by (cbn beta; cbn [elements]; rewrite Hsrc; reflexivity)
            |rewrite (run_call_on c0 _ source' tt)
               by (cbn beta; cbn [elements]; rewrite Hsrc; reflexivity)]).
  all: cbn beta; cbn [elements chains active_chain stdout]; name_heap.
  all: destruct (chain !! 1%nat) as [c1|] eqn:H1; run.
  all: try (destruct (str_in "65" (name (els0 c0))); run).
  all: try (destruct (long_pos_rows "DEIMOS_2" !! 0%nat) as [long2|] eqn:Hl2; run).
  all: try (destruct (long_pos_rows "DEIMOS_1" !! 0%nat) as [long1|] eqn:Hl1; run).
  all: cbn [final_world fst elements chains active_chain stdout].
  all: repeat split; try discriminate; try reflexivity.
  all: intros; unfold_heaps; simplify_eq; heap_lookup; fields.
  all: first [reflexivity | congruence].
Qed.

Lemma align_m1_any (chain : list oe_ref) (m1d : list (list float)) (kw : Kwargs)
    (w : World) :
  let w' := final_world (align_m1 chain m1d kw w) in
  active_chain w' = active_chain w
  /\ chains w' = chains w
  /\ (kwargs_get (kw_verbose kw) false = false -> stdout w' = stdout w)
  /\ (forall h, chain !! 2%nat <> Some h -> chain !! 3%nat <> Some h ->
        chain !! 4%nat <> Some h -> elements w' h = elements w h).
Proof.
  unfold align_m1.
  destruct (kwargs_get (kw_verbose kw) false); cbn [when]; run.
  all: destruct (chain !! 3%nat) as [c3|] eqn:H3; run.
  all: destruct (chain !! 2%nat) as [c2|] eqn:H2; run.
  all: destruct (chain !! 4%nat) as [c4|] eqn:H4; run.
  all: try destruct (str_in "1B" (name (els2 c3))); run.
  all: try (destruct (entry m1d 1 1) eqn:Hc; run).
  all: try (destruct (entry m1d 0 1) eqn:Hb; run).
  all: cbn [final_world fst elements chains active_chain stdout].
  all: repeat split; try discriminate; try reflexivity.
  all: intros; unfold_heaps; simplify_eq; heap_lookup; fields.
  all: first [reflexivity | congruence].
Qed.

Lemma align_mono_any (chain : list oe_ref) (wavelength : float)
    (condition : string) (value GM2 GM3 : float) (kw : Kwargs) (w : World) :
  let w' := final_world (align_mono chain wavelength condition value GM2 GM3 kw w) in
  active_chain w' = active_chain w
  /\ chains w' = chains w
  /\ (kwargs_get (kw_verbose kw) false = false -> stdout w' = stdout w)
  /\ (scan_grating (elements w) chain = None -> w' = w)
  /\ (forall g p h,
        scan_grating (elements w) chain = Some (g, p) ->
        h <> g ->
        (chain !! (p + 1)%nat <> Some h -> chain !! (p + 2)%nat <> Some h ->
         elements w' h = elements w h)
        /\ name (elements w' h) = name (elements w h)
        /\ phi (elements w' h) = phi (elements w h)
        /\ next (elements w' h) = next (elements w h)
        /\ order_align (elements w' h) = order_align (elements w h)
        /\ line_density (elements w' h) = line_density (elements w h)
        /\ attrs (elements w' h) = attrs (elements w h)
        /\ (chain !! (p + 1)%nat <> Some h -> theta (elements w' h) = theta (elements w h))).
Proof.
  unfold align_mono. rewrite run_scan.
  destruct (scan_grating (elements w) chain) as [[g p]|] eqn:Hscan;
    [| cbn [final_world fst]; repeat split; (discriminate || reflexivity)].
  destruct (order_align (elements w g)) as [order|] eqn:Horder;
    [rewrite (run_getattr_opt g order_align _ order) by exact Horder
    |rewrite (run_getattr_opt_none g order_align) by exact Horder].
  2: { cbn [final_world fst]. repeat split; try discriminate; reflexivity. }
  destruct (line_density (elements w g)) as [density|] eqn:Hdensity;
    [rewrite (run_getattr_opt g line_density _ density) by exact Hdensity
    |rewrite (run_getattr_opt_none g line_density) by exact Hdensity].
  2: { cbn [final_world fst]. repeat split; try discriminate; reflexivity. }
  destruct (align_grating (elements w g) condition value wavelength order density)
    as [failure | [g' gd]] eqn:Hsolve;
    [rewrite (run_call_on_fails g _ failure) by exact Hsolve
    |rewrite (run_call_on g _ g' gd) by exact Hsolve].
  { cbn [final_world fst]. repeat split; try discriminate; reflexivity. }
  cbn beta; cbn [elements chains active_chain stdout]; name_heap.
  destruct (chain !! (p + 1)%nat) as [a|] eqn:Ha; run.
  all: destruct (chain !! (p + 2)%nat) as [b|] eqn:Hb; run.
  all: destruct (kwargs_get (kw_verbose kw) false); cbn [when]; run.
  all: try (destruct (String.eqb condition "omega"); cbn [when]; run).
  all: try (destruct (PrimFloat.eqb wavelength 0) eqn:Hzero; run).
  all: cbn [final_world fst elements chains active_chain stdout].
  all: repeat split; try discriminate; try reflexivity.
  all: intros; unfold_heaps; simplify_eq; heap_lookup; fields.
  all: first [reflexivity | congruence].
Qed.

(** X1.  [align_undulator] writes to the first two elements of the path
    only, whether it completes or raises: an element that is neither is
    left as it was, and the second element, when it is not also the source,
    changes in its distance at most. *)
Theorem align_undulator_writes_only (chain : list oe_ref) (wavelength : float)
    (kw : Kwargs) (w : World) (h : oe_ref) :
  let w' := final_world (align_undulator chain wavelength kw w) in
  chain !! 0%nat <> Some h ->
  (chain !! 1%nat <> Some h -> elements w' h = elements w h)
  /\ name (elements w' h) = name (elements w h)
  /\ theta (elements w' h) = theta (elements w h)
  /\ phi (elements w' h) = phi (elements w h)
  /\ next (elements w' h) = next (elements w h)
  /\ order_align (elements w' h) = order_align (elements w h)
  /\ line_density (elements w' h) = line_density (elements w h)
  /\ attrs (elements w' h) = attrs (elements w h).
Proof.
  intros w' H0. subst w'.
  destruct (align_undulator_any chain wavelength kw w) as (_ & _ & _ & Hother & Hslit).
  split; [intros H1; apply Hother; assumption | apply Hslit; assumption].
Qed.

(** X2.  A path of fewer than two elements: [align_undulator] raises
    IndexError.  On an empty path nothing was changed; on a path of one
    element the source model has already reconfigured the source, and
    that is the only change. *)
Theorem align_undulator_short_chain (chain : list oe_ref) (wavelength : float)
    (kw : Kwargs) (w : World) :
  chain !! 1%nat = None ->
  let r := align_undulator chain wavelength kw w in
  (chain !! 0%nat = None ->
   outcome r = inl IndexError /\ forall h, elements (final_world r) h = elements w h)
  /\ (forall c0 source',
        chain !! 0%nat = Some c0 ->
        set_undulator wavelength kw (elements w c0) = inr source' ->
        outcome r = inl IndexError
        /\ elements (final_world r) c0 = source'
        /\ forall h, h <> c0 -> elements (final_world r) h = elements w h).
Proof.
  intros H1 r. subst r. unfold align_undulator. split.
  - intros H0.
    destruct (kwargs_get (kw_verbose kw) false); cbn [when]; run.
    all: cbn [outcome final_world fst snd elements]; split; reflexivity.
  - intros c0 source' H0 Hsrc.
    destruct (kwargs_get (kw_verbose kw) false); cbn [when]; run.
    all: rewrite (run_call_on c0 _ source' tt)
      by (cbn beta; cbn [elements]; rewrite Hsrc; reflexivity).
    all: cbn beta; cbn [elements chains active_chain stdout]; name_heap; run.
    all: cbn [outcome final_world fst snd elements].
    all: split; [reflexivity |].
    all: split; [| intros h Hh]; unfold_heaps; heap_lookup; reflexivity.
Qed.

(** X3.  A source whose name contains "65" and a position table without
    a DEIMOS_2 or a DEIMOS_1 row: [align_undulator] raises IndexError when
    it looks the row up, after the source model ran and with the second
    element's distance left at [dist_slit] (21 unless given), uncorrected. *)
Theorem align_undulator_missing_row (chain : list oe_ref) (wavelength : float)
    (kw : Kwargs) (w : World) (c0 c1 : oe_ref) (source' : OpticalElement) :
  chain !! 0%nat = Some c0 -> chain !! 1%nat = Some c1 ->
  set_undulator wavelength kw (elements w c0) = inr source' ->
  str_in "65" (name source') = true ->
  long_pos_rows "DEIMOS_2" = [] \/ long_pos_rows "DEIMOS_1" = [] ->
  let r := align_undulator chain wavelength kw w in
  outcome r = inl IndexError
  /\ distance_from_previous (elements (final_world r) c1)
     = kwargs_get (kw_dist_slit kw) 21%float
  /\ (c1 <> c0 -> elements (final_world r) c0 = source').
Proof.
  intros H0 H1 Hsrc H65 Hrows r. subst r. unfold align_undulator, long_pos.
  destruct (kwargs_get (kw_verbose kw) false); cbn [when]; run.
  all: rewrite (run_call_on c0 _ source' tt)
    by (cbn beta; cbn [elements]; rewrite Hsrc; reflexivity).
  all: cbn beta; cbn [elements chains active_chain stdout]; name_heap; run.
  all: assert (Hn : name (els0 c0) = name source')
    by (clear; unfold_heaps; heap_lookup; fields; reflexivity).
  all: rewrite Hn, H65; clear Hn; run.
  all: destruct (long_pos_rows "DEIMOS_2" !! 0%nat) as [long2|] eqn:Hl2; run.
  all: try (destruct (long_pos_rows "DEIMOS_1" !! 0%nat) as [long1|] eqn:Hl1; run).
  all: try (exfalso; destruct Hrows as [Hrows | Hrows]; rewrite Hrows in *; discriminate).
  all: cbn [outcome final_world fst snd elements].
  all: split; [reflexivity |].
  all: split; [| intros Hne]; unfold_heaps; heap_lookup; fields; reflexivity.
Qed.

(** X4.  A path of fewer than five elements: [align_m1] raises IndexError.
    With fewer than four elements nothing was assigned; with exactly four,
    the third element has already taken the fourth's grazing angle and has
    the fourth as its [next], while the fourth element's own [next] was
    not assigned. *)
Theorem align_m1_short_chain (chain : list oe_ref) (m1d : list (list float))
    (kw : Kwargs) (w : World) :
  chain !! 4%nat = None ->
  let r := align_m1 chain m1d kw w in
  outcome r = inl IndexError
  /\ (chain !! 3%nat = None -> forall h, elements (final_world r) h = elements w h)
  /\ (forall c2 c3,
        chain !! 2%nat = Some c2 -> chain !! 3%nat = Some c3 -> c2 <> c3 ->
        theta (elements (final_world r) c2) = theta (elements w c3)
        /\ next (elements (final_world r) c2) = Some c3
        /\ (forall h, h <> c2 -> elements (final_world r) h = elements w h)).
Proof.
  intros H4 r. subst r. unfold align_m1.
  destruct (kwargs_get (kw_verbose kw) false); cbn [when]; run.
  all: destruct (chain !! 3%nat) as [c3|] eqn:H3; run.
  all: destruct (chain !! 2%nat) as [c2|] eqn:H2; run.
  all: cbn [outcome final_world fst snd elements].
  all: split; [reflexivity |].
  all: split; [intros; first [discriminate | reflexivity] |].
  all: intros ? ? ? ? Hne; simplify_eq.
  all: repeat split; intros; unfold_heaps; heap_lookup; fields.
  all: first [reflexivity | congruence].
Qed.

(** X5.  A fourth element whose name contains "1B" and a table
    [m1_distances] without an entry [1][1] or [0][1]: [align_m1] raises
    IndexError when it reads the table, after its four assignments: the
    third element has the fourth's angle and the fourth as [next], the
    fourth has the fifth as [next], and the fifth element's distance is
    [dist_next] (5 unless given), without the correction. *)
Theorem align_m1_short_table (chain : list oe_ref) (m1d : list (list float))
    (kw : Kwargs) (w : World) (c2 c3 c4 : oe_ref) :
  chain !! 2%nat = Some c2 -> chain !! 3%nat = Some c3 -> chain !! 4%nat = Some c4 ->
  c2 <> c3 ->
  str_in "1B" (name (elements w c3)) = true ->
  entry m1d 1 1 = None \/ entry m1d 0 1 = None ->
  let r := align_m1 chain m1d kw w in
  outcome r = inl IndexError
  /\ theta (elements (final_world r) c2) = theta (elements w c3)
  /\ next (elements (final_world r) c2) = Some c3
  /\ next (elements (final_world r) c3) = Some c4
  /\ distance_from_previous (elements (final_world r) c4)
     = kwargs_get (kw_dist_next kw) 5%float.
Proof.
  intros H2 H3 H4 Hne H1B Htable r. subst r. unfold align_m1.
  destruct (kwargs_get (kw_verbose kw) false); cbn [when]; run.
  all: assert (Hn : name (els2 c3) = name (elements w c3))
    by (clear; unfold_heaps; heap_lookup; fields; reflexivity).
  all: rewrite Hn, H1B; clear Hn; run.
  all: destruct (entry m1d 1 1) as [long_c|] eqn:Hc; run.
  all: try (destruct (entry m1d 0 1) as [long_b|] eqn:Hb; run).
  all: try (exfalso; destruct Htable; discriminate).
  all: cbn [outcome final_world fst snd elements].
  all: repeat split; unfold_heaps; heap_lookup; fields.
  all: first [reflexivity | congruence].
Qed.

(** X6.  Whatever happens in [align_mono], it writes to three elements
    at most: the last grating-named element of the path (through the
    solver) and the two elements that follow it.  When the scan finds no
    grating the state is left exactly as it was.  Otherwise every element
    other than the grating keeps its name, azimuth, [next] and grating
    attributes; it keeps its grazing angle unless it is the element after
    the grating, and everything unless it is one of the two elements after
    the grating. *)
Theorem align_mono_writes_only (chain : list oe_ref) (wavelength : float)
    (condition : string) (value GM2 GM3 : float) (kw : Kwargs) (w : World) :
  let w' := final_world (align_mono chain wavelength condition value GM2 GM3 kw w) in
  (scan_grating (elements w) chain = None -> w' = w)
  /\ forall g p h,
      scan_grating (elements w) chain = Some (g, p) ->
      h <> g ->
      (chain !! (p + 1)%nat <> Some h -> chain !! (p + 2)%nat <> Some h ->
       elements w' h = elements w h)
      /\ name (elements w' h) = name (elements w h)
      /\ phi (elements w' h) = phi (elements w h)
      /\ next (elements w' h) = next (elements w h)
      /\ order_align (elements w' h) = order_align (elements w h)
      /\ line_density (elements w' h) = line_density (elements w h)
      /\ attrs (elements w' h) = attrs (elements w h)
      /\ (chain !! (p + 1)%nat <> Some h -> theta (elements w' h) = theta (elements w h)).
Proof.
  intros w'. subst w'.
  destruct (align_mono_any chain wavelength condition value GM2 GM3 kw w)
    as (_ & _ & _ & Hnone & Hsome).
  split; [exact Hnone | exact Hsome].
Qed.

(** X7.  The errors [align_mono] can end with before it assigns anything:
    when the element the scan returns carries no [order_align] or no
    [line_density], AttributeError for that attribute; when the solver
    fails, the solver's failure.  In each case the state is exactly as it
    was: no distance and no angle was assigned. *)
Theorem align_mono_fails_early (chain : list oe_ref) (wavelength : float)
    (condition : string) (value GM2 GM3 : float) (kw : Kwargs) (w : World)
    (g : oe_ref) (p : nat) :
  scan_grating (elements w) chain = Some (g, p) ->
  let r := align_mono chain wavelength condition value GM2 GM3 kw w in
  (order_align (elements w g) = None -> r = (w, inl (AttributeError "order_align")))
  /\ (forall order,
        order_align (elements w g) = Some order ->
        line_density (elements w g) = None ->
        r = (w, inl (AttributeError "line_density")))
  /\ (forall order density msg,
        order_align (elements w g) = Some order ->
        line_density (elements w g) = Some density ->
        align_grating (elements w g) condition value wavelength order density = inl msg ->
        r = (w, inl (LibraryError msg))).
Proof.
  intros Hscan r. subst r. unfold align_mono. rewrite run_scan, Hscan.
  split; [| split].
  - intros Horder.
    rewrite (run_getattr_opt_none g order_align) by exact Horder. reflexivity.
  - intros order Horder Hdensity.
    rewrite (run_getattr_opt g order_align _ order) by exact Horder.
    rewrite (run_getattr_opt_none g line_density) by exact Hdensity. reflexivity.
  - intros order density msg Horder Hdensity Hsolve.
    rewrite (run_getattr_opt g order_align _ order) by exact Horder.
    rewrite (run_getattr_opt g line_density _ density) by exact Hdensity.
    rewrite (run_call_on_fails g _ msg) by exact Hsolve. reflexivity.
Qed.

(** X8.  A grating with fewer than two elements after it: [align_mono]
    raises IndexError, and by then the solver has applied the alignment to
    the grating.  When the grating is the last element that is the only
    change; when one element follows it, that element has also received
    the angle [deviation/2] and the distance [GM2_trans_dist/np.sin(deviation)]. *)
Theorem align_mono_short_chain (chain : list oe_ref) (wavelength : float)
    (condition : string) (value GM2 GM3 : float) (kw : Kwargs) (w : World)
    (g : oe_ref) (p : nat) (order : Z) (density : float)
    (g' : OpticalElement) (gd : gdict) :
  scan_grating (elements w) chain = Some (g, p) ->
  order_align (elements w g) = Some order ->
  line_density (elements w g) = Some density ->
  align_grating (elements w g) condition value wavelength order density = inr (g', gd) ->
  chain !! (p + 2)%nat = None ->
  let r := align_mono chain wavelength condition value GM2 GM3 kw w in
  outcome r = inl IndexError
  /\ (chain !! (p + 1)%nat = None ->
      elements (final_world r) g = g'
      /\ forall h, h <> g -> elements (final_world r) h = elements w h)
  /\ (forall a,
        chain !! (p + 1)%nat = Some a -> a <> g ->
        elements (final_world r) g = g'
        /\ theta (elements (final_world r) a) = (deviation gd / 2)%float
        /\ distance_from_previous (elements (final_world r) a)
           = (GM2 / np_sin (deviation gd))%float
        /\ forall h, h <> g -> h <> a -> elements (final_world r) h = elements w h).
Proof.
  intros Hscan Horder Hdensity Hsolve Hb r. subst r. unfold align_mono.
  rewrite run_scan, Hscan.
  rewrite (run_getattr_opt g order_align _ order) by exact Horder.
  rewrite (run_getattr_opt g line_density _ density) by exact Hdensity.
  rewrite (run_call_on g _ g' gd) by exact Hsolve.
  cbn beta; cbn [elements chains active_chain stdout]; name_heap.
  destruct (chain !! (p + 1)%nat) as [a|] eqn:Ha; run.
  all: cbn [outcome final_world fst snd elements].
  all: split; [reflexivity |].
  all: split; [intros; try discriminate | intros; simplify_eq].
  all: repeat split; intros; unfold_heaps; heap_lookup; fields.
  all: first [reflexivity | congruence].
Qed.

(** X9.  [align_call] on any state, whether it completes or raises:
    [Deimos.active_chain] and [Deimos.chains] are what they were, nothing
    is printed unless the verbose option is on, and an element that is not
    on the active path is left exactly as it was. *)
Theorem align_call_keeps (alignment_wvl emission_wvl : float)
    (condition : string) (value : float) (m1d : list (list float))
    (GM2 GM3 : float) (kw : Kwargs) (w : World) :
  let w' := final_world
              (align_call alignment_wvl emission_wvl condition value m1d GM2 GM3 kw w) in
  active_chain w' = active_chain w
  /\ chains w' = chains w
  /\ (kwargs_get (kw_verbose kw) false = false -> stdout w' = stdout w)
  /\ (forall h, h ∉ active_chain w -> elements w' h = elements w h).
Proof.
  intros w'. subst w'. rewrite align_call_steps.
  pose proof (align_undulator_any (active_chain w) emission_wvl kw w) as Hu.
  destruct (align_undulator (active_chain w) emission_wvl kw w) as [w1 [e|[]]].
  all: cbn [final_world fst] in Hu.
  all: destruct Hu as (Hc1 & Ht1 & Hq1 & He1 & _).
  all: assert (Hoff : forall i h, h ∉ active_chain w -> active_chain w !! i <> Some h)
    by (intros i h Hh Hi; apply Hh; apply list_elem_of_lookup; exists i; exact Hi).
  - cbn [final_world fst]. repeat split; try assumption.
    intros h Hh. apply He1; apply Hoff; exact Hh.
  - pose proof (align_m1_any (active_chain w1) m1d kw w1) as Hm.
    destruct (align_m1 (active_chain w1) m1d kw w1) as [w2 [e|[]]].
    all: cbn [final_world fst] in Hm.
    all: destruct Hm as (Hc2 & Ht2 & Hq2 & He2).
    + cbn [final_world fst]. repeat split; try congruence.
      * intros Hq. rewrite Hq2, Hq1 by exact Hq. reflexivity.
      * intros h Hh. rewrite He2, He1; try reflexivity; try rewrite Hc1; apply Hoff; exact Hh.
    + pose proof (align_mono_any (active_chain w2) alignment_wvl condition value
                    GM2 GM3 kw w2) as Hg.
      destruct (align_mono (active_chain w2) alignment_wvl condition value GM2 GM3 kw w2)
        as [w3 r3].
      cbn [final_world fst] in *.
      destruct Hg as (Hc3 & Ht3 & Hq3 & Hnone & Hsome).
      repeat split; try congruence.
      * intros Hq. rewrite Hq3, Hq2, Hq1 by exact Hq. reflexivity.
      * intros h Hh.
        assert (Hstep : elements w3 h = elements w2 h).
        { destruct (scan_grating (elements w2) (active_chain w2)) as [[g p]|] eqn:Hscan.
          - apply scan_grating_last_match in Hscan as Hlast.
            destruct Hlast as (Hp & _ & _).
            rewrite Hc2, Hc1 in Hp.
            apply (Hsome g p h eq_refl).
            + intros ->. exact (Hoff p g Hh Hp).
            + rewrite Hc2, Hc1. apply Hoff; exact Hh.
            + rewrite Hc2, Hc1. apply Hoff; exact Hh.
          - rewrite (Hnone eq_refl). reflexivity. }
        rewrite Hstep, He2, He1; try reflexivity; try rewrite Hc1; apply Hoff; exact Hh.
Qed.

(** X10.  [align_call] on a path laid out as the notebook builds its
    chains: distinct elements, the last grating-named element in the fifth
    position.  When the source model and the solver return (and the verbose
    report is off or the alignment wavelength is not zero) the call
    completes, and: the source is as the source model left it; the second
    element's distance is the undulator step's; the third element has the
    fourth's angle and the fourth as [next]; the fourth has the grating as
    [next]; the grating is what the solver made of it, the solver having
    been given the grating with the distance of the M1 step already set;
    the sixth element has angle [deviation/2] and distance
    [GM2_trans_dist/np.sin(deviation)]; the seventh has distance
    [GM3_proj_dist - GM2_trans_dist/np.tan(deviation)]; every other
    element is unchanged. *)
Theorem align_call_sets (alignment_wvl emission_wvl : float)
    (condition : string) (value : float) (m1d : list (list float))
    (GM2 GM3 : float) (kw : Kwargs) (w : World)
    (c0 c1 c2 c3 c4 c5 c6 : oe_ref) (source' : OpticalElement) (d1 d4 : float)
    (order : Z) (density : float) (g' : OpticalElement) (gd : gdict) :
  NoDup (active_chain w) ->
  active_chain w !! 0%nat = Some c0 -> active_chain w !! 1%nat = Some c1 ->
  active_chain w !! 2%nat = Some c2 -> active_chain w !! 3%nat = Some c3 ->
  active_chain w !! 4%nat = Some c4 -> active_chain w !! 5%nat = Some c5 ->
  active_chain w !! 6%nat = Some c6 ->
  matches (elements w) c4 ->
  (forall j h, (4 < j)%nat -> active_chain w !! j = Some h -> ~ matches (elements w) h) ->
  set_undulator emission_wvl kw (elements w c0) = inr source' ->
  undulator_distance kw (name source') d1 ->
  m1_distance m1d kw (name (elements w c3)) d4 ->
  order_align (elements w c4) = Some order ->
  line_density (elements w c4) = Some density ->
  align_grating (with_distance d4 (elements w c4)) condition value alignment_wvl
                order density = inr (g', gd) ->
  kwargs_get (kw_verbose kw) false = false \/ PrimFloat.eqb alignment_wvl 0 = false ->
  let r := align_call alignment_wvl emission_wvl condition value m1d GM2 GM3 kw w in
  outcome r = inr tt
  /\ elements (final_world r) c0 = source'
  /\ elements (final_world r) c1 = with_distance d1 (elements w c1)
  /\ elements (final_world r) c2
     = with_next (Some c3) (with_theta (theta (elements w c3)) (elements w c2))
  /\ elements (final_world r) c3 = with_next (Some c4) (elements w c3)
  /\ elements (final_world r) c4 = g'
  /\ elements (final_world r) c5
     = with_distance (GM2 / np_sin (deviation gd))%float
         (with_theta (deviation gd / 2)%float (elements w c5))
  /\ elements (final_world r) c6
     = with_distance (GM3 - (GM2 / np_tan (deviation gd)))%float (elements w c6)
  /\ (forall h, h ∉ [c0; c1; c2; c3; c4; c5; c6] ->
        elements (final_world r) h = elements w h).
Proof.
  intros Hnd H0 H1 H2 H3 H4 H5 H6 Hmatch Hlater Hsrc Hd1 Hd4 Horder Hdensity Hsolve
         Hquiet r.
  subst r. distinct_refs Hnd.
  destruct (align_undulator_run (active_chain w) emission_wvl kw w c0 c1 source' d1
              H0 H1 Hsrc Hd1) as (wa & Hund & Hchain_a & Hels_a).
  assert (Hd4a : m1_distance m1d kw (name (elements wa c3)) d4)
    by (through; exact Hd4).
  destruct (align_m1_run (active_chain w) m1d kw wa c2 c3 c4 d4 H2 H3 H4 Hd4a)
    as (wb & Hm1 & Hchain_b & Hels_b).
  assert (Hscan : scan_grating (elements wb) (active_chain w) = Some (c4, 4%nat)).
  { apply scan_grating_last_match. split; [exact H4 | split].
    - unfold matches in *. through. exact Hmatch.
    - intros j h Hj Hh. unfold matches.
      assert (h <> c0)
        by (intros ->; pose proof (NoDup_lookup _ _ _ _ Hnd Hh H0); lia).
      through; try congruence; apply (Hlater j); assumption. }
  assert (Hg : elements wb c4 = with_distance d4 (elements w c4))
    by (through; reflexivity).
  assert (Horder_b : order_align (elements wb c4) = Some order)
    by (rewrite Hg; exact Horder).
  assert (Hdensity_b : line_density (elements wb c4) = Some density)
    by (rewrite Hg; exact Hdensity).
  assert (Hsolve_b : align_grating (elements wb c4) condition value alignment_wvl
                                   order density = inr (g', gd))
    by (rewrite Hg; exact Hsolve).
  destruct (align_mono_run (active_chain w) alignment_wvl condition value GM2 GM3 kw wb
              c4 4 order density g' gd c5 c6 Hscan Horder_b Hdensity_b Hsolve_b H5 H6)
    as (_ & Hels & Hout & _).
  specialize (Hout Hquiet).
  rewrite align_call_steps, Hund, Hchain_a, Hm1, Hchain_b, Hchain_a.
  split; [exact Hout |].
  repeat split; try (rewrite Hels; unfold gm2_distance, m2m3_distance; through; reflexivity).
  intros h Hh. rewrite !not_elem_of_cons in Hh.
  destruct Hh as (? & ? & ? & ? & ? & ? & ? & _).
  rewrite Hels; through; reflexivity.
Qed.

(** ** Loops *)

(** The rule for a loop that completes: an invariant of what has been
    iterated over so far. *)
Lemma for_each_completes {A B : Type} (I : list A -> B -> World -> Prop)
    (body : B -> A -> M B) (l : list A) :
  (forall done x acc w,
      I done acc w ->
      exists acc' w', body acc x w = (w', inr acc') /\ I (done ++ [x]) acc' w') ->
  forall acc w,
    I [] acc w ->
    exists acc' w', for_each l body acc w = (w', inr acc') /\ I l acc' w'.
Proof.
  intros Hbody.
  assert (Hgen : forall rest done acc w,
             I done acc w ->
             exists acc' w',
               for_each rest body acc w = (w', inr acc') /\ I (done ++ rest) acc' w').
  { induction rest as [|x rest IH]; intros done acc w Hinv.
    - exists acc, w. rewrite app_nil_r. split; [reflexivity | exact Hinv].
    - destruct (Hbody done x acc w Hinv) as (acc1 & w1 & Hrun & Hinv1).
      destruct (IH (done ++ [x]) acc1 w1 Hinv1) as (acc2 & w2 & Hrest & Hinv2).
      exists acc2, w2. cbn [for_each]. unfold bind. rewrite Hrun.
      split; [exact Hrest |]. rewrite <- app_assoc in Hinv2. exact Hinv2. }
  intros acc w Hinv. exact (Hgen l [] acc w Hinv).
Qed.

(** ** The table of the sweep *)

Lemma column_key_not_energy (config rest : string) :
  config +:+ "_" +:+ rest <> "energy".
Proof.
  intros H.
  assert (Hin : forall s t : string, In "_"%char (list_ascii_of_string (s +:+ "_" +:+ t))).
  { induction s as [|c s IH]; intros t; cbn; [left; reflexivity | right; apply IH]. }
  specialize (Hin config rest). rewrite H in Hin. cbn in Hin.
  repeat destruct Hin as [Hin | Hin]; try discriminate Hin. exact Hin.
Qed.

Lemma length_enumerate_from {A : Type} (i : nat) (l : list A) :
  length (enumerate_from i l) = length l.
Proof.
  revert i. induction l as [|x l IH]; intros i; [reflexivity |].
  cbn [enumerate_from length]. rewrite IH. reflexivity.
Qed.

Lemma energy_step_runs (total_steps bar_length : Z) (condition : string) (algn : float)
    (nrays : Z) (curves : list float) (turn : nat * float) (w : World) :
  (10 <= total_steps)%Z ->
  (forall request w0, exists w1 res, get_resolution request w0 = inr (w1, res)) ->
  exists res w',
    energy_step total_steps bar_length condition algn nrays curves turn w
    = (w', inr (curves ++ [res])).
Proof.
  intros Hten Hres. destruct turn as [i E]. unfold energy_step, py_mod.
  assert (Hdiv : (total_steps / 10 =? 0)%Z = false).
  { apply Z.eqb_neq. pose proof (Z.div_le_mono 10 total_steps 10 ltac:(lia) Hten) as Hle.
    change (10 / 10)%Z with 1%Z in Hle. lia. }
  rewrite Hdiv, run_ret.
  assert (Hprogress : exists w0,
             when (Z.of_nat i mod (total_steps / 10) =? 0)%Z
               (report_progress (Z.of_nat i) total_steps bar_length) w = (w0, inr tt)).
  { destruct (Z.of_nat i mod (total_steps / 10) =? 0)%Z; cbn [when].
    - unfold report_progress.
      replace (total_steps =? 0)%Z with false by (symmetry; apply Z.eqb_neq; lia).
      rewrite run_ret. eexists. reflexivity.
    - eexists. reflexivity. }
  destruct Hprogress as (w0 & Hprogress).
  unfold bind at 1. rewrite Hprogress.
  match goal with
  | |- context [get_resolution ?request] =>
      destruct (Hres request w0) as (w1 & res & Hcall)
  end.
  exists res, w1. unfold bind, call_beamline. rewrite Hcall. reflexivity.
Qed.

Lemma energy_loop_runs (energy : list float) (total_steps bar_length : Z)
    (condition : string) (algn : float) (nrays : Z) (w : World) :
  energy = [] \/ (10 <= total_steps)%Z ->
  (forall request w0, exists w1 res, get_resolution request w0 = inr (w1, res)) ->
  exists curves w',
    for_each (enumerate energy)
             (energy_step total_steps bar_length condition algn nrays) [] w
    = (w', inr curves)
    /\ length curves = length energy.
Proof.
  intros [-> | Hten] Hres.
  - exists [], w. split; reflexivity.
  - assert (Hbody : forall (done : list (nat * float)) turn (curves : list float) (w0 : World),
               length curves = length done ->
               exists curves' w1,
                 energy_step total_steps bar_length condition algn nrays curves turn w0
                 = (w1, inr curves')
                 /\ length curves' = length (done ++ [turn])).
    { intros done turn curves w0 Hlen.
      destruct (energy_step_runs total_steps bar_length condition algn nrays curves
                  turn w0 Hten Hres) as (res & w1 & Hstep).
      exists (curves ++ [res]), w1. split; [exact Hstep |].
      rewrite !length_app, Hlen. reflexivity. }
    destruct (for_each_completes
                (fun done (curves : list float) (_ : World) => length curves = length done)
                _ (enumerate energy) Hbody [] w eq_refl)
      as (curves & w' & Hrun & Hlen).
    exists curves, w'. split; [exact Hrun |].
    rewrite Hlen. apply length_enumerate_from.
Qed.

Lemma config_step_runs (energy : list float) (total_steps bar_length : Z)
    (condition : string) (algn : float) (nrays : Z)
    (resolution : gmap string (list float)) (config : string) (w : World) :
  energy = [] \/ (10 <= total_steps)%Z ->
  (forall config w0, exists w1, set_active_chain config w0 = inr w1) ->
  (forall request w0, exists w1 res, get_resolution request w0 = inr (w1, res)) ->
  exists curves w',
    config_step energy total_steps bar_length condition algn nrays resolution config w
    = (w', inr (<[config +:+ "_" +:+ condition +:+ "_" +:+ format_fixed 2 algn
                  := curves]> resolution))
    /\ length curves = length energy.
Proof.
  intros Hlong Hsel Hres. unfold config_step.
  destruct (Hsel config w) as (w1 & Hw1).
  destruct (energy_loop_runs energy total_steps bar_length condition algn nrays w1
              Hlong Hres) as (curves & w2 & Hloop & Hlen).
  exists curves. eexists. split; [| exact Hlen].
  unfold bind at 1. unfold call_beamline. rewrite Hw1.
  unfold bind at 1. rewrite Hloop. reflexivity.
Qed.


Lemma table_of_start (energy : list float) (condition : string)
    (P : string -> float -> Prop) :
  (forall config algn, ~ P config algn) ->
  table_of energy condition P {["energy" := energy]}.
Proof.
  intros Hnone. split; [| split].
  - rewrite lookup_singleton. reflexivity.
  - intros config algn HP. destruct (Hnone config algn HP).
  - intros key curve. rewrite lookup_singleton.
    destruct (decide ("energy" = key)) as [<- |]; [left; reflexivity | discriminate].
Qed.

Lemma table_of_weaken (energy : list float) (condition : string)
    (P Q : string -> float -> Prop) (table : gmap string (list float)) :
  (forall c v, P c v <-> Q c v) ->
  table_of energy condition P table -> table_of energy condition Q table.
Proof.
  intros HPQ (Henergy & Hcolumns & Hkeys). split; [exact Henergy | split].
  - intros c v Hcv. apply Hcolumns, HPQ, Hcv.
  - intros key curve Hkey. destruct (Hkeys key curve Hkey) as [-> | (c & v & HP & ->)].
    + left. reflexivity.
    + right. exists c, v. split; [apply HPQ, HP | reflexivity].
Qed.

Lemma table_of_insert (energy : list float) (condition : string)
    (P Q : string -> float -> Prop) (table : gmap string (list float))
    (config : string) (algn : float) (curves : list float) :
  table_of energy condition P table ->
  length curves = length energy ->
  (forall c v, Q c v <-> P c v \/ (c = config /\ v = algn)) ->
  table_of energy condition Q
    (<[config +:+ "_" +:+ condition +:+ "_" +:+ format_fixed 2 algn := curves]> table).
Proof.
  intros (Henergy & Hcolumns & Hkeys) Hlen HQ. split; [| split].
  - rewrite lookup_insert_ne by apply column_key_not_energy. exact Henergy.
  - intros c v Hcv. rewrite lookup_insert.
    destruct (decide _) as [_ | Hne]; [exists curves; split; [reflexivity | exact Hlen] |].
    apply HQ in Hcv as [HP | [-> ->]]; [exact (Hcolumns c v HP) | destruct (Hne eq_refl)].
  - intros key curve. rewrite lookup_insert.
    destruct (decide _) as [<- | _].
    + intros _. right. exists config, algn. split; [apply HQ; right; split; reflexivity |].
      reflexivity.
    + intros Hkey. destruct (Hkeys key curve Hkey) as [-> | (c & v & HP & ->)].
      * left. reflexivity.
      * right. exists c, v. split; [apply HQ; left; exact HP | reflexivity].
Qed.

(** X11.  A sweep over an energy array that is empty or has at least ten
    points, with a beamline that accepts every configuration name and
    returns a resolution for every request, completes and returns the
    table: the column "energy" is the energy array; every pair of a
    configuration and a condition value has its column, named
    [<configuration>_<condition>_<value with two decimals>], with one entry
    per energy point; there is no other column.  (With an empty energy
    array the columns are empty; two values that print alike share one
    column.) *)
Theorem sweep_returns_table (energy : list float) (active_chains : list string)
    (alignment_condition : string) (values : list float) (nrays : Z) (w : World) :
  energy = [] \/ (10 <= length energy)%nat ->
  (forall config w0, exists w1, set_active_chain config w0 = inr w1) ->
  (forall request w0, exists w1 res, get_resolution request w0 = inr (w1, res)) ->
  exists table,
    outcome (beamline_energy_resolution energy active_chains alignment_condition
                                        values nrays w) = inr table
    /\ table !! "energy" = Some energy
    /\ (forall config algn,
          config ∈ active_chains -> algn ∈ values ->
          exists curve,
            table !! (config +:+ "_" +:+ alignment_condition +:+ "_"
                      +:+ format_fixed 2 algn) = Some curve
            /\ length curve = length energy)
    /\ (forall key curve,
          table !! key = Some curve ->
          key = "energy"
          \/ exists config algn,
              config ∈ active_chains /\ algn ∈ values
              /\ key = config +:+ "_" +:+ alignment_condition +:+ "_"
                       +:+ format_fixed 2 algn).
Proof.
  intros Hlong Hsel Hres. unfold beamline_energy_resolution.
  assert (Hlong' : energy = [] \/ (10 <= Z.of_nat (length energy))%Z)
    by (destruct Hlong; [left; assumption | right; lia]).
  set (total_steps := Z.of_nat (length energy)) in *.
  set (outer := fun (seen : list float) (table : gmap string (list float)) (_ : World) =>
                  table_of energy alignment_condition
                    (fun c v => c ∈ active_chains /\ v ∈ seen) table).
  assert (Hbody : forall seen algn table w0,
             outer seen table w0 ->
             exists table' w1,
               condition_step energy active_chains total_steps 10 alignment_condition
                              nrays table algn w0 = (w1, inr table')
               /\ outer (seen ++ [algn]) table' w1).
  { intros seen algn table w0 Htable. unfold condition_step. rewrite run_print.
    set (inner := fun (done : list string) (table : gmap string (list float))
                      (_ : World) =>
                    table_of energy alignment_condition
                      (fun c v => (c ∈ active_chains /\ v ∈ seen)
                                  \/ (c ∈ done /\ v = algn)) table).
    assert (Hconfig : forall done config table w2,
               inner done table w2 ->
               exists table' w3,
                 config_step energy total_steps 10 alignment_condition algn nrays
                             table config w2 = (w3, inr table')
                 /\ inner (done ++ [config]) table' w3).
    { intros done config table0 w2 Hinner.
      destruct (config_step_runs energy total_steps 10 alignment_condition algn nrays
                  table0 config w2 Hlong' Hsel Hres) as (curves & w3 & Hrun & Hlen).
      eexists. exists w3. split; [exact Hrun |].
      apply (table_of_insert _ _ _ _ _ _ _ _ Hinner Hlen).
      intros c v. rewrite elem_of_app, list_elem_of_singleton. clear. tauto. }
    match goal with
    | |- context [for_each _ _ _ ?w2] =>
        destruct (for_each_completes inner _ active_chains Hconfig table w2)
          as (table' & w1 & Hrun & Hdone)
    end.
    { revert Htable. unfold outer, inner. apply table_of_weaken.
      intros c v. split; [intros H; left; exact H | intros [H | [H _]]; [exact H |]].
      inversion H. }
    exists table', w1. split; [exact Hrun |].
    revert Hdone. unfold outer, inner. apply table_of_weaken.
    intros c v. rewrite elem_of_app, list_elem_of_singleton. clear. tauto. }
  destruct (for_each_completes outer _ values Hbody {["energy" := energy]} w)
    as (table & w' & Hrun & Htable).
  { apply table_of_start. intros c v [_ Hv]. inversion Hv. }
  exists table. rewrite Hrun. split; [reflexivity |].
  destruct Htable as (Henergy & Hcolumns & Hkeys).
  split; [exact Henergy | split].
  - intros config algn Hc Hv. apply Hcolumns. split; assumption.
  - intros key curve Hkey.
    destruct (Hkeys key curve Hkey) as [-> | (c & v & [Hc Hv] & ->)].
    + left. reflexivity.
    + right. exists c, v. repeat split; assumption.
Qed.

(** A loop that completed ran every turn to completion. *)
Lemma for_each_completed {A B : Type} (body : B -> A -> M B) (l : list A) (x : A) :
  x ∈ l ->
  forall acc w w' r,
    for_each l body acc w = (w', inr r) ->
    exists acc0 w0 acc1 w1, body acc0 x w0 = (w1, inr acc1).
Proof.
  induction l as [|y l IH]; intros Hx acc w w' r Hrun; [inversion Hx |].
  cbn [for_each] in Hrun. unfold bind in Hrun.
  destruct (body acc y w) as [w1 [e | acc1]] eqn:Hstep; [discriminate Hrun |].
  apply elem_of_cons in Hx as [-> | Hx].
  - exists acc, w, acc1, w1. exact Hstep.
  - exact (IH Hx acc1 w1 w' r Hrun).
Qed.

(** X12.  The sweep returns a table or nothing: when it returns one, for
    at least one condition value and one configuration, the energy array
    was empty or had at least ten points, and every configuration of the
    list was accepted by the beamline; a configuration that is rejected, or
    an array of one to nine points, leaves no partial table. *)
Theorem sweep_table_means (energy : list float) (active_chains : list string)
    (alignment_condition : string) (values : list float) (nrays : Z) (w : World)
    (table : gmap string (list float)) :
  outcome (beamline_energy_resolution energy active_chains alignment_condition
                                      values nrays w) = inr table ->
  values <> [] -> active_chains <> [] ->
  (energy = [] \/ (10 <= length energy)%nat)
  /\ forall config,
      config ∈ active_chains -> exists w0 w1, set_active_chain config w0 = inr w1.
Proof.
  intros Htable Hvalues Hchains.
  destruct values as [|algn values]; [congruence |]. clear Hvalues.
  unfold beamline_energy_resolution in Htable.
  destruct (for_each (algn :: values) _ _ w) as [w' [e | table']] eqn:Hrun;
    [discriminate Htable |].
  destruct (for_each_completed _ _ algn ltac:(left) _ _ _ _ Hrun)
    as (table0 & w0 & table1 & w1 & Hcondition).
  unfold condition_step in Hcondition. rewrite run_print in Hcondition.
  assert (Hconfig : forall config,
             config ∈ active_chains ->
             exists resolution w2 resolution' w3,
               config_step energy (Z.of_nat (length energy)) 10 alignment_condition
                           algn nrays resolution config w2 = (w3, inr resolution')).
  { intros config Hc. exact (for_each_completed _ _ config Hc _ _ _ _ Hcondition). }
  split.
  - destruct active_chains as [|config rest]; [congruence |].
    destruct (Hconfig config ltac:(left)) as (resolution & w2 & resolution' & w3 & Hstep).
    destruct energy as [|E energy]; [left; reflexivity | right].
    destruct (le_lt_dec 10 (length (E :: energy))) as [Hlong | Hshort]; [exact Hlong |].
    exfalso. revert Hstep. unfold config_step, bind, call_beamline.
    destruct (set_active_chain config w2) as [msg | w4]; [discriminate |].
    rewrite energy_loop_short by (discriminate || exact (short_array_step _ Hshort)).
    discriminate.
  - intros config Hc.
    destruct (Hconfig config Hc) as (resolution & w2 & resolution' & w3 & Hstep).
    revert Hstep. unfold config_step, bind, call_beamline.
    destruct (set_active_chain config w2) as [msg | w4] eqn:Hsel; [discriminate |].
    intros _. exists w2, w4. exact Hsel.
Qed.

(** ** The progress bar *)

Lemma length_str_repeat (c : ascii) (n : Z) :
  String.length (str_repeat c n) = Z.to_nat n.
Proof.
  unfold str_repeat. induction (Z.to_nat n) as [|k IH]; [reflexivity |].
  simpl. rewrite IH. reflexivity.
Qed.

Lemma length_string_app (s t : string) :
  String.length (s +:+ t) = (String.length s + String.length t)%nat.
Proof.
  induction s as [|c s IH]; [reflexivity |].
  simpl. rewrite IH. reflexivity.
Qed.

(** X13.  The progress line of the sweep, at point [i] of [total_steps]:
    the percentage printed is the ceiling of [100*i/total_steps], between 0
    and 100, and the bar is always ten characters wide, one ["#"] for every
    full ten percent and ["-"] for the rest. *)
Theorem progress_bar_is_full_width (i total_steps : Z) (w : World) :
  (0 <= i < total_steps)%Z ->
  exists bar progress,
    report_progress i total_steps 10 w
    = (with_stdout (stdout w ++ [Out_progress bar progress]) w, inr tt)
    /\ (100 * i <= progress * total_steps < 100 * i + total_steps)%Z
    /\ (0 <= progress <= 100)%Z
    /\ bar = str_repeat "#" (progress / 10) +:+ str_repeat "-" (10 - progress / 10)
    /\ String.length bar = 10%nat.
Proof.
  intros Hi. unfold report_progress.
  replace (total_steps =? 0)%Z with false by (symmetry; apply Z.eqb_neq; lia).
  rewrite run_ret.
  set (progress := (- (- (100 * i) / total_steps))%Z).
  assert (Hceil : (100 * i <= progress * total_steps < 100 * i + total_steps)%Z).
  { pose proof (Z.div_mod (- (100 * i)) total_steps ltac:(lia)) as Hdiv.
    pose proof (Z.mod_pos_bound (- (100 * i)) total_steps ltac:(lia)) as Hmod.
    subst progress. nia. }
  assert (Hrange : (0 <= progress <= 100)%Z) by nia.
  eexists _, progress. split; [reflexivity |].
  split; [exact Hceil |]. split; [exact Hrange |]. split; [reflexivity |].
  rewrite length_string_app, !length_str_repeat.
  pose proof (Z.div_pos progress 10 ltac:(lia) ltac:(lia)) as Hlow.
  pose proof (Z.div_le_upper_bound progress 10 10 ltac:(lia) ltac:(lia)) as Hhigh.
  lia.
Qed.

(** ** Beamline configurations *)

(** The rule for a loop that may raise: what every turn preserves holds
    at the end, however the loop ends. *)
Lemma for_each_keeps {A B : Type} (I : World -> Prop) (body : B -> A -> M B)
    (l : list A) :
  (forall acc x w, x ∈ l -> I w -> I (final_world (body acc x w))) ->
  forall acc w, I w -> I (final_world (for_each l body acc w)).
Proof.
  induction l as [|x l IH]; intros Hbody acc w Hinv; [exact Hinv |].
  cbn [for_each]. unfold bind.
  pose proof (Hbody acc x w ltac:(left) Hinv) as Hstep.
  destruct (body acc x w) as [w1 [e | acc1]]; [exact Hstep |].
  apply IH; [| exact Hstep].
  intros acc0 y w0 Hy. apply Hbody. right. exact Hy.
Qed.

Lemma run_set_chain {B : Type} (chain_name : string) (chain : list oe_ref)
    (k : unit -> M B) (w : World) :
  bind (set_chain chain_name chain) k w
  = k tt (mkWorld (elements w) (<[chain_name := chain]> (chains w))
                  (active_chain w) (stdout w)).
Proof. reflexivity. Qed.

(** One turn of the innermost loop stores at most one chain, under some
    name: the beamline, followed by the focusing group and the endstations
    when the group has more than one element.  It changes nothing else. *)
Lemma chain_step_any (undulator m1bis grating : oe_ref) (endstations focusing : list oe_ref)
    (w : World) :
  let w' := final_world (chain_step undulator m1bis grating endstations tt focusing w) in
  elements w' = elements w /\ active_chain w' = active_chain w /\ stdout w' = stdout w
  /\ (chains w' = chains w
      \/ exists chain_name,
          chains w'
          = <[chain_name
              := beamline_of undulator m1bis grating
                 ++ (if (1 <? length focusing)%nat then focusing ++ endstations else [])]>
              (chains w)).
Proof.
  unfold chain_step, last_character, item_from_end.
  destruct (1 <? length focusing)%nat; run.
  all: destruct (split_on "_" (name (elements w grating)) !! 1%nat) as [lines|] eqn:Hlines;
    run.
  all: try (destruct (2 <=? length focusing)%nat; [| cbn [final_world fst]; auto];
            destruct (focusing !! (length focusing - 2)%nat) as [mirror|] eqn:Hmirror; run).
  all: try match goal with
         | |- context [list_ascii_of_string ?s] =>
             destruct (1 <=? length (list_ascii_of_string s))%nat;
             [destruct (list_ascii_of_string s
                          !! (length (list_ascii_of_string s) - 1)%nat) eqn:Hletter; run |]
         end.
  all: cbn [final_world fst set_chain with_chains elements chains active_chain stdout].
  all: repeat split; auto.
  all: right; eexists; rewrite ?app_nil_r; reflexivity.
Qed.

Lemma build_chains_any (undulators m1 gratings : list oe_ref)
    (wolters : list (list oe_ref)) (endstations : list oe_ref) (w : World) :
  let w' := final_world (build_chains undulators m1 gratings wolters endstations w) in
  elements w' = elements w /\ active_chain w' = active_chain w /\ stdout w' = stdout w
  /\ forall chain_name chain,
      chains w' !! chain_name = Some chain ->
      chains w !! chain_name = Some chain
      \/ laid_out undulators m1 gratings wolters endstations chain.
Proof.
  intros w'. subst w'. unfold build_chains.
  set (I := fun w' : World =>
              elements w' = elements w /\ active_chain w' = active_chain w
              /\ stdout w' = stdout w
              /\ forall chain_name chain,
                  chains w' !! chain_name = Some chain ->
                  chains w !! chain_name = Some chain
                  \/ laid_out undulators m1 gratings wolters endstations chain).
  assert (Hstart : I w) by (repeat split; auto).
  enough (Hend : I (final_world
                      (for_each undulators
                         (fun _ undulator =>
                            for_each m1
                              (fun _ m1bis =>
                                 for_each gratings
                                   (fun _ grating =>
                                      for_each wolters
                                        (chain_step undulator m1bis grating endstations)
                                        tt)
                                   tt)
                              tt)
                         tt w))) by exact Hend.
  apply (for_each_keeps I); [| exact Hstart].
  intros [] undulator w1 Hu H1. apply (for_each_keeps I); [| exact H1].
  intros [] m1bis w2 Hm H2. apply (for_each_keeps I); [| exact H2].
  intros [] grating w3 Hg H3. apply (for_each_keeps I); [| exact H3].
  intros [] focusing w4 Hf (He4 & Ha4 & Hs4 & Hc4).
  destruct (chain_step_any undulator m1bis grating endstations focusing w4)
    as (He & Ha & Hs & Hc).
  split; [congruence | split; [congruence | split; [congruence |]]].
  intros chain_name chain Hchain.
  destruct Hc as [Hc | [stored Hc]]; rewrite Hc in Hchain; [exact (Hc4 _ _ Hchain) |].
  rewrite lookup_insert in Hchain.
  destruct (decide (stored = chain_name)) as [_ |]; [| exact (Hc4 _ _ Hchain)].
  injection Hchain as <-. right.
  exists undulator, m1bis, grating.
  exists (if (1 <? length focusing)%nat then focusing ++ endstations else []).
  repeat (split; [first [assumption | reflexivity] |]).
  destruct (1 <? length focusing)%nat eqn:Hlen; [| left; reflexivity].
  right. exists focusing. apply Nat.ltb_lt in Hlen. auto.
Qed.

(** X14.  Whatever lists the cell that fills [Deimos.chains] runs on, and
    whether it completes or raises, every chain it stores is laid out as
    the alignment expects: the source, the aperture, M1A, one of the M1
    mirrors, one of the gratings (in the fifth position), M2, M3 and the two
    films of the monochromator, then either nothing or a focusing group of
    more than one element followed by the endstations.  Chains that were
    there before are kept or replaced by such a chain; no element is
    touched. *)
Theorem build_chains_layout (undulators m1 gratings : list oe_ref)
    (wolters : list (list oe_ref)) (endstations : list oe_ref) (w : World) :
  let w' := final_world (build_chains undulators m1 gratings wolters endstations w) in
  elements w' = elements w
  /\ forall chain_name chain,
      chains w' !! chain_name = Some chain ->
      chains w !! chain_name = Some chain
      \/ exists undulator m1bis grating tail,
          undulator ∈ undulators /\ m1bis ∈ m1 /\ grating ∈ gratings
          /\ chain = [undulator; pupil; m1a; m1bis; grating; m2; m3; foc_hor;
                      mono_exit_slit] ++ tail
          /\ (tail = []
              \/ exists focusing,
                  focusing ∈ wolters /\ (1 < length focusing)%nat
                  /\ tail = focusing ++ endstations).
Proof.
  intros w'. subst w'.
  destruct (build_chains_any undulators m1 gratings wolters endstations w)
    as (He & _ & _ & Hc).
  split; [exact He | exact Hc].
Qed.

Lemma for_each_raises_only {A B : Type} (I : World -> Prop) (e : exn)
    (body : B -> A -> M B) (l : list A) :
  (forall acc x, raises_only I e (body acc x)) ->
  forall acc, raises_only I e (for_each l body acc).
Proof.
  intros Hbody. induction l as [|x l IH]; intros acc w Hinv.
  - split; [exact Hinv | right; exists acc; reflexivity].
  - cbn [for_each]. unfold bind.
    destruct (Hbody acc x w Hinv) as [Hkeep Hout].
    destruct (body acc x w) as [w1 [e1 | acc1]]; cbn [final_world outcome fst snd] in *.
    + split; [exact Hkeep |]. destruct Hout as [Hout | [r Hout]]; [left; exact Hout |].
      discriminate Hout.
    + exact (IH acc1 w1 Hkeep).
Qed.

Lemma for_each_raises_always {A B : Type} (I : World -> Prop) (e : exn)
    (body : B -> A -> M B) (l : list A) (x : A) :
  (forall acc y, raises_only I e (body acc y)) ->
  x ∈ l ->
  (forall acc, raises_always I e (body acc x)) ->
  forall acc, raises_always I e (for_each l body acc).
Proof.
  intros Hbody Hx Hfails. induction l as [|y l IH]; intros acc w Hinv; [inversion Hx |].
  cbn [for_each]. unfold bind.
  destruct (Hbody acc y w Hinv) as [Hkeep Hout].
  pose proof (Hfails acc w Hinv) as Hfail.
  destruct (body acc y w) as [w1 [e1 | acc1]] eqn:Hrun;
    cbn [final_world outcome fst snd] in *.
  - destruct Hout as [Hout | [r Hout]]; [exact Hout | discriminate Hout].
  - apply elem_of_cons in Hx as [-> | Hx].
    + rewrite Hrun in Hfail. discriminate Hfail.
    + exact (IH Hx acc1 w1 Hkeep).
Qed.

Lemma split_on_no_separator (sep : ascii) (s : string) :
  ~ In sep (list_ascii_of_string s) -> split_on sep s = [s].
Proof.
  induction s as [|c s IH]; intros Hnot; [reflexivity |].
  cbn [split_on]. cbn [list_ascii_of_string In] in Hnot.
  destruct (Ascii.eqb_spec c sep) as [-> | _]; [exfalso; apply Hnot; left; reflexivity |].
  rewrite IH by (intros Hs; apply Hnot; right; exact Hs). reflexivity.
Qed.

Lemma chain_step_raises_only (els : oe_ref -> OpticalElement)
    (undulator m1bis grating : oe_ref) (endstations focusing : list oe_ref) :
  raises_only (fun w => elements w = els) IndexError
    (chain_step undulator m1bis grating endstations tt focusing).
Proof.
  intros w Hinv.
  destruct (chain_step_any undulator m1bis grating endstations focusing w) as (He & _).
  split; [congruence |].
  unfold chain_step, last_character, item_from_end.
  destruct (1 <? length focusing)%nat; run.
  all: destruct (split_on "_" (name (elements w grating)) !! 1%nat) as [lines|] eqn:Hlines;
    run.
  all: try (destruct (2 <=? length focusing)%nat; [| left; reflexivity];
            destruct (focusing !! (length focusing - 2)%nat) as [mirror|] eqn:Hmirror; run).
  all: try match goal with
         | |- context [list_ascii_of_string ?s] =>
             destruct (1 <=? length (list_ascii_of_string s))%nat;
             [destruct (list_ascii_of_string s
                          !! (length (list_ascii_of_string s) - 1)%nat) eqn:Hletter; run |]
         end.
  all: first [left; reflexivity | right; exists tt; reflexivity].
Qed.

Lemma chain_step_bad_name (els : oe_ref -> OpticalElement)
    (undulator m1bis grating : oe_ref) (endstations focusing : list oe_ref) :
  ~ In "_"%char (list_ascii_of_string (name (els grating))) ->
  raises_always (fun w => elements w = els) IndexError
    (chain_step undulator m1bis grating endstations tt focusing).
Proof.
  intros Hname w Hinv. unfold chain_step.
  destruct (1 <? length focusing)%nat; run.
  all: rewrite Hinv, (split_on_no_separator _ _ Hname); reflexivity.
Qed.

(** X15.  The chain names take the part of the grating's name after its
    first underscore.  On non-empty lists of undulators, M1 mirrors and
    focusing groups, one grating whose name contains no underscore makes
    the cell raise IndexError. *)
Theorem build_chains_bad_grating_name (undulators m1 gratings : list oe_ref)
    (wolters : list (list oe_ref)) (endstations : list oe_ref) (w : World)
    (grating : oe_ref) :
  undulators <> [] -> m1 <> [] -> wolters <> [] ->
  grating ∈ gratings ->
  ~ In "_"%char (list_ascii_of_string (name (elements w grating))) ->
  outcome (build_chains undulators m1 gratings wolters endstations w) = inl IndexError.
Proof.
  intros Hu Hm Hf Hg Hname.
  destruct undulators as [|undulator us]; [congruence |].
  destruct m1 as [|m1bis ms]; [congruence |].
  destruct wolters as [|focusing fs]; [congruence |].
  set (I := fun w' : World => elements w' = elements w).
  assert (Hsafe1 : forall u m g (acc : unit),
             raises_only I IndexError
               (for_each (focusing :: fs) (chain_step u m g endstations) acc)).
  { intros u m g. apply for_each_raises_only. intros [] f.
    apply chain_step_raises_only. }
  assert (Hsafe2 : forall u m (acc : unit),
             raises_only I IndexError
               (for_each gratings
                  (fun _ g => for_each (focusing :: fs) (chain_step u m g endstations) tt)
                  acc)).
  { intros u m. apply for_each_raises_only. intros _ g. apply Hsafe1. }
  assert (Hsafe3 : forall u (acc : unit),
             raises_only I IndexError
               (for_each (m1bis :: ms)
                  (fun _ m =>
                     for_each gratings
                       (fun _ g =>
                          for_each (focusing :: fs) (chain_step u m g endstations) tt)
                       tt)
                  acc)).
  { intros u. apply for_each_raises_only. intros _ m. apply Hsafe2. }
  unfold build_chains.
  apply (for_each_raises_always I IndexError _ _ undulator); [| left | | reflexivity].
  { intros _ u. apply Hsafe3. }
  intros _.
  apply (for_each_raises_always I IndexError _ _ m1bis); [| left |].
  { intros _ m. apply Hsafe2. }
  intros _.
  apply (for_each_raises_always I IndexError _ _ grating); [| exact Hg |].
  { intros _ g. apply Hsafe1. }
  intros _.
  apply (for_each_raises_always I IndexError _ _ focusing); [| left |].
  { intros [] f. apply chain_step_raises_only. }
  intros []. apply chain_step_bad_name. exact Hname.
Qed.

(** ** The configurations of the calculation cell *)

Lemma fold_left_collect {A : Type} (f : list string -> A -> list string)
    (P : A -> string -> Prop) (l : list A) :
  (forall acc x c, c ∈ f acc x <-> c ∈ acc \/ P x c) ->
  forall acc c, c ∈ fold_left f l acc <-> c ∈ acc \/ exists x, x ∈ l /\ P x c.
Proof.
  intros Hf. induction l as [|y l IH]; intros acc c; cbn [fold_left].
  - split; [intros H; left; exact H | intros [H | (x & Hx & _)]; [exact H | inversion Hx]].
  - rewrite IH, Hf. split.
    + intros [[H | H] | (x & Hx & H)].
      * left. exact H.
      * right. exists y. split; [left | exact H].
      * right. exists x. split; [right; exact Hx | exact H].
    + intros [H | (x & Hx & H)]; [left; left; exact H |].
      apply elem_of_cons in Hx as [-> | Hx]; [left; right; exact H |].
      right. exists x. split; assumption.
Qed.

(** X16.  What the loops of the calculation cell put in [configs]: the
    names [<u>_<mr>_<mn>_<ends>] of all the combinations of the four lists,
    except those of a mirror whose name contains "1B" with a grating whose
    name contains "2400", and nothing else. *)
Theorem build_configs_holds (und mirror mono endstation : list string) (config : string) :
  config ∈ build_configs und mirror mono endstation
  <-> exists u mr mn ends,
      u ∈ und /\ mr ∈ mirror /\ mn ∈ mono /\ ends ∈ endstation
      /\ (str_in "1B" mr && str_in "2400" mn)%bool = false
      /\ config = u +:+ "_" +:+ mr +:+ "_" +:+ mn +:+ "_" +:+ ends.
Proof.
  unfold build_configs.
  rewrite (fold_left_collect _
             (fun u c => exists mr mn ends,
                  mr ∈ mirror /\ mn ∈ mono /\ ends ∈ endstation
                  /\ (str_in "1B" mr && str_in "2400" mn)%bool = false
                  /\ c = u +:+ "_" +:+ mr +:+ "_" +:+ mn +:+ "_" +:+ ends)).
  - split.
    + intros [H | (u & Hu & mr & mn & ends & H)]; [inversion H |].
      exists u, mr, mn, ends. clear - Hu H. tauto.
    + intros (u & mr & mn & ends & Hu & H). right. exists u. split; [exact Hu |].
      exists mr, mn, ends. exact H.
  - intros acc1 u c1.
    rewrite (fold_left_collect _
               (fun mr c => exists mn ends,
                    mn ∈ mono /\ ends ∈ endstation
                    /\ (str_in "1B" mr && str_in "2400" mn)%bool = false
                    /\ c = u +:+ "_" +:+ mr +:+ "_" +:+ mn +:+ "_" +:+ ends)).
    + split.
      * intros [H | (mr & Hmr & mn & ends & H)]; [left; exact H |].
        right. exists mr, mn, ends. clear - Hmr H. tauto.
      * intros [H | (mr & mn & ends & Hmr & H)]; [left; exact H |].
        right. exists mr. split; [exact Hmr |]. exists mn, ends. exact H.
    + intros acc2 mr c2.
      rewrite (fold_left_collect _
                 (fun mn c => exists ends,
                      ends ∈ endstation
                      /\ (str_in "1B" mr && str_in "2400" mn)%bool = false
                      /\ c = u +:+ "_" +:+ mr +:+ "_" +:+ mn +:+ "_" +:+ ends)).
      * split.
        -- intros [H | (mn & Hmn & ends & H)]; [left; exact H |].
           right. exists mn, ends. clear - Hmn H. tauto.
        -- intros [H | (mn & ends & Hmn & H)]; [left; exact H |].
           right. exists mn. split; [exact Hmn |]. exists ends. exact H.
      * intros acc3 mn c3.
        rewrite (fold_left_collect _
                   (fun ends c =>
                      (str_in "1B" mr && str_in "2400" mn)%bool = false
                      /\ c = u +:+ "_" +:+ mr +:+ "_" +:+ mn +:+ "_" +:+ ends)).
        -- reflexivity.
        -- intros acc4 ends c4.
           destruct (str_in "1B" mr && str_in "2400" mn)%bool.
           ++ split; [intros H; left; exact H | intros [H | [H _]]; [exact H | discriminate]].
           ++ rewrite elem_of_app, list_elem_of_singleton. clear. tauto.
Qed.

End Notebook.


(** ** The statements on the declared beamline *)

Lemma declared_chain_without_grating (h : oe_ref) :
  h ∈ chain_without_grating -> ~ matches declared_element h.
Proof.
  unfold chain_without_grating, matches. intros Hh.
  repeat (apply elem_of_cons in Hh as [-> | Hh]; [vm_compute; discriminate |]).
  inversion Hh.
Qed.

Lemma recording_source_keeps_name (wavelength : float) (kw : Kwargs)
    (e e' : OpticalElement) :
  recording_source wavelength kw e = inr e' -> name e' = name e.
Proof. unfold recording_source. intros H. injection H as <-. reflexivity. Qed.

Lemma recording_source_stable : stable_source recording_source.
Proof.
  intros wavelength kw e e' H. unfold recording_source in *.
  injection H as <-. split; reflexivity.
Qed.

Lemma omega_solver_stable : stable_solver omega_solver.
Proof.
  intros e condition value wavelength order density e' gd. unfold omega_solver.
  destruct (String.eqb condition "omega"); [|discriminate].
  intros H. injection H as <- <-. repeat split; reflexivity.
Qed.

(** C6 on the U65 chain: the pupil ends 21 - (1.8 - 0) from the source. *)
Lemma align_undulator_sets_witness :
  outcome (align_undulator recording_source position_table chain_U65_M1C_G2400_mono
             wavelength_1500eV no_options (declared_world chain_U65_M1C_G2400_mono))
  = inr tt
  /\ distance_from_previous
       (elements
          (final_world
             (align_undulator recording_source position_table chain_U65_M1C_G2400_mono
                wavelength_1500eV no_options (declared_world chain_U65_M1C_G2400_mono)))
          pupil)
     = (21 - (1.8 - 0))%float.
Proof.
  apply (align_undulator_sets recording_source position_table chain_U65_M1C_G2400_mono
           wavelength_1500eV no_options (declared_world chain_U65_M1C_G2400_mono)
           undulator_U65 pupil
           (mkOE "U65" 0 0 0 None None None [("wavelength", wavelength_1500eV)])).
  - reflexivity.
  - reflexivity.
  - reflexivity.
  - exists 1.8%float, 0%float. repeat split; reflexivity.
Defined.

(** C7 on the M1B chain: M1A takes M1B's angle and the grating ends
    5 + (0.98646 - 0.46304) from M1B. *)
Lemma align_m1_sets_witness :
  outcome (align_m1 chain_U52_M1B_G1600_mono triad_distances no_options
             (declared_world chain_U52_M1B_G1600_mono)) = inr tt
  /\ theta (elements (final_world
                        (align_m1 chain_U52_M1B_G1600_mono triad_distances no_options
                           (declared_world chain_U52_M1B_G1600_mono))) m1a)
     = theta (declared_element m1b)
  /\ next (elements (final_world
                       (align_m1 chain_U52_M1B_G1600_mono triad_distances no_options
                          (declared_world chain_U52_M1B_G1600_mono))) m1a)
     = Some m1b
  /\ next (elements (final_world
                       (align_m1 chain_U52_M1B_G1600_mono triad_distances no_options
                          (declared_world chain_U52_M1B_G1600_mono))) m1b)
     = Some grating_1600
  /\ distance_from_previous
       (elements (final_world
                    (align_m1 chain_U52_M1B_G1600_mono triad_distances no_options
                       (declared_world chain_U52_M1B_G1600_mono))) grating_1600)
     = (5 + (0.98646 - 0.46304))%float.
Proof.
  apply (align_m1_sets chain_U52_M1B_G1600_mono triad_distances no_options
           (declared_world chain_U52_M1B_G1600_mono) m1a m1b grating_1600).
  - reflexivity.
  - reflexivity.
  - reflexivity.
  - discriminate.
  - exists 0.98646%float, 0.46304%float. repeat split; reflexivity.
Defined.

(** C10 on the M1B chain: M1B keeps its angle and its distance, the pupil
    everything. *)
Lemma align_m1_writes_only_witness :
  let w' := final_world (align_m1 chain_U52_M1B_G1600_mono triad_distances no_options
                           (declared_world chain_U52_M1B_G1600_mono)) in
  theta (elements w' m1b) = theta (declared_element m1b)
  /\ distance_from_previous (elements w' m1b) = distance_from_previous (declared_element m1b)
  /\ theta (elements w' pupil) = theta (declared_element pupil)
  /\ next (elements w' pupil) = next (declared_element pupil).
Proof.
  intros w'. subst w'.
  destruct (align_m1_writes_only chain_U52_M1B_G1600_mono triad_distances no_options
              (declared_world chain_U52_M1B_G1600_mono) m1b)
    as (_ & _ & _ & _ & _ & _ & _ & _ & Hfourth).
  destruct (align_m1_writes_only chain_U52_M1B_G1600_mono triad_distances no_options
              (declared_world chain_U52_M1B_G1600_mono) pupil)
    as (_ & _ & _ & _ & _ & Htheta & _ & Hnext & _).
  destruct Hfourth as [Hangle Hdistance]; [reflexivity |].
  split; [exact Hangle |].
  split; [apply Hdistance; discriminate |].
  split; [apply Htheta; discriminate |].
  apply Hnext; discriminate.
Defined.

(** C1 on the declared chain: the grating is found at position 4, M2 gets
    half the deviation and the first distance, M3 the second. *)
Lemma align_mono_sets_witness :
  let w' := final_world
              (align_mono series_sin series_tan omega_solver chain_U52_M1B_G1600_mono
                 wavelength_1500eV "omega" omega_value 20e-3%float 700e-3%float
                 no_options (declared_world chain_U52_M1B_G1600_mono)) in
  theta (elements w' m2) = (deviation omega_gdict / 2)%float
  /\ distance_from_previous (elements w' m2)
     = (20e-3 / series_sin (deviation omega_gdict))%float
  /\ distance_from_previous (elements w' m3)
     = (700e-3 - 20e-3 / series_tan (deviation omega_gdict))%float.
Proof.
  apply (align_mono_sets series_sin series_tan omega_solver chain_U52_M1B_G1600_mono
           wavelength_1500eV "omega" omega_value 20e-3%float 700e-3%float no_options
           (declared_world chain_U52_M1B_G1600_mono)
           grating_1600 4 1%Z (1600 / milli)%float
           (with_theta omega_value (declared_element grating_1600)) omega_gdict m2 m3).
  - reflexivity.
  - reflexivity.
  - reflexivity.
  - reflexivity.
  - reflexivity.
  - reflexivity.
  - discriminate.
Defined.

Lemma nothing_after_second_grating (j : nat) (h : oe_ref) :
  (5 < j)%nat -> chain_two_gratings !! j = Some h -> ~ matches reseau_elements h.
Proof.
  intros Hj Hh. unfold matches.
  do 6 (destruct j as [|j]; [lia |]).
  do 3 (destruct j as [|j]; [injection Hh as <-; vm_compute; discriminate |]).
  discriminate Hh.
Qed.

(** C8 on the path with both gratings: the second one, named
    "RESEAU_2400", is the one aligned; "grating_1600" before it is left as
    it was. *)
Lemma align_mono_takes_last_match_witness :
  let w' := final_world
              (align_mono series_sin series_tan omega_solver chain_two_gratings
                 wavelength_1500eV "omega" omega_value 20e-3%float 700e-3%float
                 no_options (reseau_world chain_two_gratings)) in
  scan_grating reseau_elements chain_two_gratings = Some (grating_2400, 5%nat)
  /\ elements w' grating_2400 = with_theta omega_value (reseau_elements grating_2400)
  /\ theta (elements w' m2) = (deviation omega_gdict / 2)%float
  /\ distance_from_previous (elements w' m2)
     = (20e-3 / series_sin (deviation omega_gdict))%float
  /\ distance_from_previous (elements w' m3)
     = (700e-3 - 20e-3 / series_tan (deviation omega_gdict))%float
  /\ elements w' grating_1600 = reseau_elements grating_1600.
Proof.
  destruct (align_mono_takes_last_match series_sin series_tan omega_solver
              chain_two_gratings wavelength_1500eV "omega" omega_value
              20e-3%float 700e-3%float no_options (reseau_world chain_two_gratings)
              grating_2400 5 1%Z (2400 / milli)%float
              (with_theta omega_value (reseau_elements grating_2400)) omega_gdict m2 m3)
    as (Hscan & Hgrating & Hm2 & Hm3 & Hothers).
  - reflexivity.
  - left. reflexivity.
  - exact nothing_after_second_grating.
  - reflexivity.
  - reflexivity.
  - reflexivity.
  - reflexivity.
  - reflexivity.
  - intros w'. subst w'.
    split; [exact Hscan |].
    split; [apply Hgrating; discriminate |].
    destruct Hm2 as [Htheta Hdist]; [discriminate |].
    split; [exact Htheta |]. split; [exact Hdist |]. split; [exact Hm3 |].
    apply Hothers; discriminate.
Defined.

Lemma reseau_chain_has_no_grating_keyword (h : oe_ref) :
  h ∈ chain_U65_M1C_G2400_mono ->
  str_in "grating" (lower (name (reseau_elements h))) = false.
Proof.
  unfold chain_U65_M1C_G2400_mono. intros Hh.
  repeat (apply elem_of_cons in Hh as [-> | Hh]; [vm_compute; reflexivity |]).
  inversion Hh.
Qed.

(** C2 as stated fails: on this path no name contains "grating" (the
    grating is called "RESEAU_2400"), and [align_mono] raises nothing. *)
Lemma align_mono_accepts_reseau :
  (forall h, h ∈ chain_U65_M1C_G2400_mono ->
             str_in "grating" (lower (name (reseau_elements h))) = false)
  /\ outcome (align_mono series_sin series_tan omega_solver chain_U65_M1C_G2400_mono
                wavelength_1500eV "omega" omega_value 20e-3%float 700e-3%float
                no_options (reseau_world chain_U65_M1C_G2400_mono))
     = inr tt.
Proof.
  split; [exact reseau_chain_has_no_grating_keyword | vm_compute; reflexivity].
Qed.

(** C2, amended, on two paths: without a grating the configuration error;
    with one, and a solver that returns a zero deviation, no error and the
    infinite distances the divisions give. *)
Lemma align_mono_raises_witness :
  outcome (align_mono series_sin series_tan omega_solver chain_without_grating
             wavelength_1500eV "omega" 0%float 20e-3%float 700e-3%float
             no_options (declared_world chain_without_grating))
  = inl (ValueError no_grating_message)
  /\ outcome (align_mono series_sin series_tan omega_solver chain_U52_M1B_G1600_mono
                wavelength_1500eV "omega" 0%float 20e-3%float 700e-3%float
                no_options (declared_world chain_U52_M1B_G1600_mono))
     = inr tt
  /\ distance_from_previous
       (elements
          (final_world
             (align_mono series_sin series_tan omega_solver chain_U52_M1B_G1600_mono
                wavelength_1500eV "omega" 0%float 20e-3%float 700e-3%float
                no_options (declared_world chain_U52_M1B_G1600_mono))) m2)
     = infinity
  /\ distance_from_previous
       (elements
          (final_world
             (align_mono series_sin series_tan omega_solver chain_U52_M1B_G1600_mono
                wavelength_1500eV "omega" 0%float 20e-3%float 700e-3%float
                no_options (declared_world chain_U52_M1B_G1600_mono))) m3)
     = neg_infinity.
Proof.
  split.
  - apply (align_mono_raises series_sin series_tan omega_solver chain_without_grating
             wavelength_1500eV "omega" 0%float 20e-3%float 700e-3%float no_options
             (declared_world chain_without_grating)).
    exact declared_chain_without_grating.
  - destruct (proj2 (align_mono_raises series_sin series_tan omega_solver
                       chain_U52_M1B_G1600_mono wavelength_1500eV "omega" 0%float
                       20e-3%float 700e-3%float no_options
                       (declared_world chain_U52_M1B_G1600_mono))
                grating_1600 4%nat 1%Z (1600 / milli)%float
                (with_theta 0%float (declared_element grating_1600))
                (mkGdict 0 0 (0 / degree) (0 / degree) (2 * 0))%float m2 m3)
      as (Hout & Hm2 & Hm3).
    + reflexivity.
    + reflexivity.
    + reflexivity.
    + reflexivity.
    + reflexivity.
    + reflexivity.
    + left. reflexivity.
    + split; [exact Hout |]. split.
      * rewrite Hm2 by discriminate. reflexivity.
      * rewrite Hm3. reflexivity.
Defined.

(** C4 as stated fails: on the path without a grating [align_call] does
    end with the configuration error, but M1A no longer is as it was:
    its [next] and its grazing angle were assigned before the scan. *)
Lemma align_call_mutates_before_raising :
  let r := align_call series_sin series_tan recording_source omega_solver position_table
             wavelength_1500eV wavelength_1500eV "omega" omega_value
             triad_distances 20e-3%float 700e-3%float no_options
             (declared_world chain_without_grating) in
  (forall h, h ∈ chain_without_grating -> ~ matches declared_element h)
  /\ outcome r = inl (ValueError no_grating_message)
  /\ next (declared_element m1a) = None
  /\ next (elements (final_world r) m1a) = Some m1b
  /\ theta (elements (final_world r) m1a) <> theta (declared_element m1a).
Proof.
  intros r. subst r.
  split; [exact declared_chain_without_grating |].
  split; [vm_compute; reflexivity |].
  split; [reflexivity |].
  split; [vm_compute; reflexivity |].
  intros H. apply (f_equal (fun x => PrimFloat.eqb x 0)) in H.
  vm_compute in H. discriminate H.
Qed.

(** C4, amended, on the same path: the call ends with the configuration
    error in the world the first two steps produced. *)
Lemma align_call_without_grating_witness :
  align_call series_sin series_tan recording_source omega_solver position_table
    wavelength_1500eV wavelength_1500eV "omega" omega_value
    triad_distances 20e-3%float 700e-3%float no_options
    (declared_world chain_without_grating)
  = (final_world
       (align_m1 chain_without_grating triad_distances no_options
          (final_world
             (align_undulator recording_source position_table chain_without_grating
                wavelength_1500eV no_options (declared_world chain_without_grating)))),
     inl (ValueError no_grating_message)).
Proof.
  apply (align_call_without_grating series_sin series_tan recording_source omega_solver
           position_table wavelength_1500eV wavelength_1500eV "omega" omega_value
           triad_distances 20e-3%float 700e-3%float no_options
           (declared_world chain_without_grating)
           (final_world
              (align_undulator recording_source position_table chain_without_grating
                 wavelength_1500eV no_options (declared_world chain_without_grating)))).
  - exact (recording_source_keeps_name wavelength_1500eV no_options).
  - exact declared_chain_without_grating.
  - reflexivity.
  - reflexivity.
Defined.

Lemma declared_m1_pair_not_gratings (i : nat) (h : oe_ref) :
  (i < 4)%nat -> chain_U52_M1B_G1600_mono !! i = Some h -> ~ matches declared_element h.
Proof.
  intros Hi Hh. unfold matches.
  do 4 (destruct i as [|i]; [injection Hh as <-; vm_compute; discriminate |]).
  lia.
Qed.

(** C5 on the declared chain, with the verbose report on: the second call
    completes and leaves every element as the first one left it. *)
Lemma align_call_twice_witness :
  let call := align_call series_sin series_tan recording_source omega_solver
                position_table wavelength_1500eV wavelength_1500eV "omega" omega_value
                triad_distances 20e-3%float 700e-3%float verbose_options in
  let w1 := final_world (call (declared_world chain_U52_M1B_G1600_mono)) in
  exists w2, call w1 = (w2, inr tt) /\ forall h, elements w2 h = elements w1 h.
Proof.
  intros call w1. subst call w1.
  apply (align_call_twice series_sin series_tan recording_source omega_solver
           position_table wavelength_1500eV wavelength_1500eV "omega" omega_value
           triad_distances 20e-3%float 700e-3%float verbose_options
           (declared_world chain_U52_M1B_G1600_mono)).
  - apply (bool_decide_unpack _). vm_compute. exact I.
  - exact declared_m1_pair_not_gratings.
  - exact recording_source_stable.
  - exact omega_solver_stable.
  - vm_compute. reflexivity.
Defined.

(** Where the hypothesis on the first four elements is used: with the
    grating in the fourth position, [align_m1] copies the grating's angle to
    the third element before the solver sets it, so the second call copies
    another angle than the first. *)
Example grating_in_m1_slot_twice :
  let call := align_call series_sin series_tan recording_source omega_solver
                position_table wavelength_1500eV wavelength_1500eV "omega" omega_value
                triad_distances 20e-3%float 700e-3%float no_options in
  let r1 := call (declared_world chain_grating_in_m1_slot) in
  let r2 := call (final_world r1) in
  outcome r1 = inr tt /\ outcome r2 = inr tt
  /\ theta (elements (final_world r1) m1a) = 0%float
  /\ theta (elements (final_world r2) m1a) = omega_value.
Proof. repeat split; vm_compute; reflexivity. Qed.

(** C9 on the three energies of the specification's scenario. *)
Lemma short_sweep_divides_by_zero_witness :
  beamline_energy_resolution select_chain flat_resolution triad_distances
    [350; 1000; 1500]%float ["U52_M1B_G1600_mono"] "cff" [0.1; 0.5]%float 500
    (declared_world [])
  = (mkWorld declared_element declared_chains chain_U52_M1B_G1600_mono
             [Out_condition "cff" 0.1%float],
     inl ZeroDivisionError).
Proof.
  apply (short_sweep_divides_by_zero select_chain flat_resolution triad_distances
           [350; 1000; 1500]%float "U52_M1B_G1600_mono" [] "cff" 0.1%float [0.5]%float
           500 (declared_world [])).
  - discriminate.
  - cbn. lia.
  - reflexivity.
Defined.

(** C3: the scenario of the specification, run.  The sweep over
    [350, 1000, 1500] eV, one configuration and the two values 0.1 and 0.5
    returns no table: it raises ZeroDivisionError, having printed the header
    of the first value only. *)
Theorem three_point_sweep_raises :
  outcome (beamline_energy_resolution select_chain flat_resolution triad_distances
             [350; 1000; 1500]%float ["U52_M1B_G1600_mono"] "cff" [0.1; 0.5]%float 500
             (declared_world []))
  = inl ZeroDivisionError
  /\ stdout (final_world
               (beamline_energy_resolution select_chain flat_resolution triad_distances
                  [350; 1000; 1500]%float ["U52_M1B_G1600_mono"] "cff" [0.1; 0.5]%float
                  500 (declared_world [])))
     = [Out_condition "cff" 0.1%float].
Proof. split; vm_compute; reflexivity. Qed.

(** With ten energies the same sweep returns the table: the energy column
    and one column of ten entries per condition value, named after the
    configuration, the condition and the value with two decimals. *)
Example ten_point_sweep_columns :
  match outcome (beamline_energy_resolution select_chain flat_resolution triad_distances
                   ten_energies ["U52_M1B_G1600_mono"] "cff" [0.1; 0.5]%float 500
                   (declared_world [])) with
  | inr table =>
      dom table = {["energy"; "U52_M1B_G1600_mono_cff_0.10"; "U52_M1B_G1600_mono_cff_0.50"]}
      /\ table !! "energy" = Some ten_energies
      /\ (length <$> table !! "U52_M1B_G1600_mono_cff_0.10") = Some 10%nat
      /\ (length <$> table !! "U52_M1B_G1600_mono_cff_0.50") = Some 10%nat
  | inl _ => False
  end.
Proof. vm_compute. repeat split; reflexivity. Qed.

Example format_fixed_two_decimals :
  format_fixed 2 0.1 = "0.10" /\ format_fixed 2 0.5 = "0.50"
  /\ format_fixed 2 0.125 = "0.12" /\ format_fixed 2 (-0.001) = "-0.00"
  /\ format_fixed 3 0.692 = "0.692" /\ format_fixed 0 1.5 = "2".
Proof. repeat split; vm_compute; reflexivity. Qed.

(** ** The chains the notebook declares *)

(** X17.  The declaration cell, run on the elements as constructed,
    completes and fills [Deimos.chains] with 36 chains; every configuration
    name the calculation cell loops over is the name of one of them, a
    chain of thirteen elements that ends with the two endstations [cromag]
    and [mk2t] whose impacts the calculation reads. *)
Theorem calculation_configs_are_chains :
  let r := declare_chains constructed_world in
  outcome r = inr tt
  /\ size (chains (final_world r)) = 36%nat
  /\ length calculation_configs = 12%nat
  /\ forall config,
      config ∈ calculation_configs ->
      exists chain,
        chains (final_world r) !! config = Some chain
        /\ length chain = 13%nat
        /\ chain !! 11%nat = Some cromag /\ chain !! 12%nat = Some mk2t.
Proof.
  intros r. subst r.
  split; [vm_compute; reflexivity |].
  split; [vm_compute; reflexivity |].
  split; [vm_compute; reflexivity |].
  intros config Hconfig.
  set (configs := calculation_configs) in Hconfig. vm_compute in configs. subst configs.
  repeat (apply elem_of_cons in Hconfig as [-> | Hconfig];
          [eexists; split; [vm_compute; reflexivity | repeat split] |]).
  inversion Hconfig.
Qed.

(** ** The further statements on the declared beamline *)

(** X1 on the U65 chain: the undulator step leaves M1A as it was, and
    the pupil's angle. *)
Lemma align_undulator_writes_only_witness :
  let w' := final_world
              (align_undulator recording_source position_table chain_U65_M1C_G2400_mono
                 wavelength_1500eV no_options (declared_world chain_U65_M1C_G2400_mono)) in
  elements w' m1a = declared_element m1a
  /\ theta (elements w' pupil) = theta (declared_element pupil).
Proof.
  intros w'. subst w'.
  destruct (align_undulator_writes_only recording_source position_table
              chain_U65_M1C_G2400_mono wavelength_1500eV no_options
              (declared_world chain_U65_M1C_G2400_mono) m1a)
    as [Hm1a _]; [discriminate |].
  destruct (align_undulator_writes_only recording_source position_table
              chain_U65_M1C_G2400_mono wavelength_1500eV no_options
              (declared_world chain_U65_M1C_G2400_mono) pupil)
    as (_ & _ & Htheta & _); [discriminate |].
  split; [apply Hm1a; discriminate | exact Htheta].
Defined.

(** X2 on a path that holds the source only: IndexError, and the source
    carries the wavelength the source model recorded. *)
Lemma align_undulator_short_chain_witness :
  let r := align_undulator recording_source position_table chain_source_only
             wavelength_1500eV no_options (declared_world chain_source_only) in
  outcome r = inl IndexError
  /\ attrs (elements (final_world r) undulator_U52) = [("wavelength", wavelength_1500eV)].
Proof.
  intros r. subst r.
  destruct (align_undulator_short_chain recording_source position_table chain_source_only
              wavelength_1500eV no_options (declared_world chain_source_only) eq_refl)
    as [_ Hone].
  destruct (Hone undulator_U52
              (mkOE "U52" 0 0 0 None None None [("wavelength", wavelength_1500eV)])
              eq_refl eq_refl) as (Hout & Hsource & _).
  split; [exact Hout | rewrite Hsource; reflexivity].
Defined.

(** X3 on the U65 chain with an empty position table: IndexError, the
    pupil at 21 from the source. *)
Lemma align_undulator_missing_row_witness :
  let r := align_undulator recording_source [] chain_U65_M1C_G2400_mono
             wavelength_1500eV no_options (declared_world chain_U65_M1C_G2400_mono) in
  outcome r = inl IndexError
  /\ distance_from_previous (elements (final_world r) pupil) = 21%float.
Proof.
  intros r. subst r.
  destruct (align_undulator_missing_row recording_source [] chain_U65_M1C_G2400_mono
              wavelength_1500eV no_options (declared_world chain_U65_M1C_G2400_mono)
              undulator_U65 pupil
              (mkOE "U65" 0 0 0 None None None [("wavelength", wavelength_1500eV)])
              eq_refl eq_refl eq_refl eq_refl (or_introl eq_refl))
    as (Hout & Hdistance & _).
  split; [exact Hout | exact Hdistance].
Defined.

(** X4 on the path cut after M1B: IndexError, with M1A already pointing
    at M1B at M1B's angle, and M1B's [next] still unset. *)
Lemma align_m1_short_chain_witness :
  let r := align_m1 chain_to_m1 triad_distances no_options (declared_world chain_to_m1) in
  outcome r = inl IndexError
  /\ theta (elements (final_world r) m1a) = theta (declared_element m1b)
  /\ next (elements (final_world r) m1a) = Some m1b
  /\ next (elements (final_world r) m1b) = None.
Proof.
  intros r. subst r.
  destruct (align_m1_short_chain chain_to_m1 triad_distances no_options
              (declared_world chain_to_m1) eq_refl) as (Hout & _ & Hfour).
  destruct (Hfour m1a m1b eq_refl eq_refl) as (Htheta & Hnext & Hothers);
    [discriminate |].
  split; [exact Hout |]. split; [exact Htheta |]. split; [exact Hnext |].
  rewrite Hothers by discriminate. reflexivity.
Defined.

(** X5 on the M1B chain with a table of one row: IndexError, the grating
    left 5 from M1B. *)
Lemma align_m1_short_table_witness :
  let r := align_m1 chain_U52_M1B_G1600_mono [[0.46485; 0.46304]]%float no_options
             (declared_world chain_U52_M1B_G1600_mono) in
  outcome r = inl IndexError
  /\ next (elements (final_world r) m1b) = Some grating_1600
  /\ distance_from_previous (elements (final_world r) grating_1600) = 5%float.
Proof.
  intros r. subst r.
  destruct (align_m1_short_table chain_U52_M1B_G1600_mono [[0.46485; 0.46304]]%float
              no_options (declared_world chain_U52_M1B_G1600_mono) m1a m1b grating_1600
              eq_refl eq_refl eq_refl)
    as (Hout & _ & _ & Hnext & Hdistance);
    [discriminate | reflexivity | left; reflexivity |].
  split; [exact Hout |]. split; [exact Hnext | exact Hdistance].
Defined.

(** X6 on the declared chain: the monochromator step leaves the pupil as
    it was, and M3's angle. *)
Lemma align_mono_writes_only_witness :
  let w' := final_world
              (align_mono series_sin series_tan omega_solver chain_U52_M1B_G1600_mono
                 wavelength_1500eV "omega" omega_value 20e-3%float 700e-3%float
                 no_options (declared_world chain_U52_M1B_G1600_mono)) in
  elements w' pupil = declared_element pupil
  /\ theta (elements w' m3) = theta (declared_element m3).
Proof.
  intros w'. subst w'.
  destruct (align_mono_writes_only series_sin series_tan omega_solver
              chain_U52_M1B_G1600_mono wavelength_1500eV "omega" omega_value
              20e-3%float 700e-3%float no_options
              (declared_world chain_U52_M1B_G1600_mono)) as [_ Hfound].
  destruct (Hfound grating_1600 4%nat pupil eq_refl) as (Hpupil & _); [discriminate |].
  destruct (Hfound grating_1600 4%nat m3 eq_refl) as (_ & _ & _ & _ & _ & _ & _ & Htheta);
    [discriminate |].
  split; [apply Hpupil; discriminate | apply Htheta; discriminate].
Defined.

(** X7 with a film named "grating_monitor" after the monochromator: it
    is the last match of the scan, it has no [order_align], and nothing is
    assigned. *)
Lemma align_mono_fails_early_witness :
  align_mono series_sin series_tan omega_solver chain_U52_M1B_G1600_mono
    wavelength_1500eV "omega" omega_value 20e-3%float 700e-3%float no_options
    (mkWorld monitor_elements declared_chains chain_U52_M1B_G1600_mono [])
  = (mkWorld monitor_elements declared_chains chain_U52_M1B_G1600_mono [],
     inl (AttributeError "order_align")).
Proof.
  destruct (align_mono_fails_early series_sin series_tan omega_solver
              chain_U52_M1B_G1600_mono wavelength_1500eV "omega" omega_value
              20e-3%float 700e-3%float no_options
              (mkWorld monitor_elements declared_chains chain_U52_M1B_G1600_mono [])
              foc_hor 7%nat eq_refl) as [Horder _].
  apply Horder. reflexivity.
Defined.

(** X8 on the path cut after the grating: IndexError, the grating
    aligned. *)
Lemma align_mono_short_chain_witness :
  let r := align_mono series_sin series_tan omega_solver chain_to_grating
             wavelength_1500eV "omega" omega_value 20e-3%float 700e-3%float
             no_options (declared_world chain_to_grating) in
  outcome r = inl IndexError
  /\ elements (final_world r) grating_1600
     = with_theta omega_value (declared_element grating_1600).
Proof.
  intros r. subst r.
  destruct (align_mono_short_chain series_sin series_tan omega_solver chain_to_grating
              wavelength_1500eV "omega" omega_value 20e-3%float 700e-3%float
              no_options (declared_world chain_to_grating)
              grating_1600 4%nat 1%Z (1600 / milli)%float
              (with_theta omega_value (declared_element grating_1600)) omega_gdict
              eq_refl eq_refl eq_refl eq_refl eq_refl) as (Hout & Hlast & _).
  destruct (Hlast eq_refl) as [Hgrating _].
  split; [exact Hout | exact Hgrating].
Defined.

Lemma declared_grating_is_last (j : nat) (h : oe_ref) :
  (4 < j)%nat -> chain_U52_M1B_G1600_mono !! j = Some h -> ~ matches declared_element h.
Proof.
  intros Hj Hh. unfold matches.
  do 5 (destruct j as [|j]; [lia |]).
  do 4 (destruct j as [|j]; [injection Hh as <-; vm_compute; discriminate |]).
  discriminate Hh.
Qed.

(** X10 on the declared chain: the grating is handed to
    the solver 5 + (0.98646 - 0.46304) from M1B, M2 takes half the
    deviation, and the two films after M3 are left alone. *)
Lemma align_call_sets_witness :
  let r := align_call series_sin series_tan recording_source omega_solver position_table
             wavelength_1500eV wavelength_1500eV "omega" omega_value
             triad_distances 20e-3%float 700e-3%float no_options
             (declared_world chain_U52_M1B_G1600_mono) in
  outcome r = inr tt
  /\ elements (final_world r) grating_1600
     = with_theta omega_value
         (with_distance (5 + (0.98646 - 0.46304))%float (declared_element grating_1600))
  /\ theta (elements (final_world r) m2) = (deviation omega_gdict / 2)%float
  /\ next (elements (final_world r) m1b) = Some grating_1600.
Proof.
  intros r. subst r.
  destruct (align_call_sets series_sin series_tan recording_source omega_solver
              position_table wavelength_1500eV wavelength_1500eV "omega" omega_value
              triad_distances 20e-3%float 700e-3%float no_options
              (declared_world chain_U52_M1B_G1600_mono)
              undulator_U52 pupil m1a m1b grating_1600 m2 m3
              (mkOE "U52" 0 0 0 None None None [("wavelength", wavelength_1500eV)])
              21%float (5 + (0.98646 - 0.46304))%float 1%Z (1600 / milli)%float
              (with_theta omega_value
                 (with_distance (5 + (0.98646 - 0.46304))%float
                    (declared_element grating_1600)))
              omega_gdict)
    as (Hout & _ & _ & _ & Hm1b & Hgrating & Hm2 & _).
  - apply (bool_decide_unpack _). vm_compute. exact I.
  - reflexivity.
  - reflexivity.
  - reflexivity.
  - reflexivity.
  - reflexivity.
  - reflexivity.
  - reflexivity.
  - reflexivity.
  - exact declared_grating_is_last.
  - reflexivity.
  - reflexivity.
  - exists 0.98646%float, 0.46304%float. repeat split; reflexivity.
  - reflexivity.
  - reflexivity.
  - reflexivity.
  - left. reflexivity.
  - split; [exact Hout |]. split; [exact Hgrating |].
    split; [rewrite Hm2; reflexivity | rewrite Hm1b; reflexivity].
Defined.

(** X11 for ten energies, one configuration and two condition values: the
    table has the energy column and a column of ten entries for either value. *)
Lemma sweep_returns_table_witness :
  exists table,
    outcome (beamline_energy_resolution accept_chain flat_resolution triad_distances
               ten_energies ["U52_M1B_G1600_mono"] "cff" [0.1; 0.5]%float 500
               (declared_world [])) = inr table
    /\ table !! "energy" = Some ten_energies
    /\ (length <$> table !! "U52_M1B_G1600_mono_cff_0.50") = Some 10%nat.
Proof.
  destruct (sweep_returns_table accept_chain flat_resolution triad_distances
              ten_energies ["U52_M1B_G1600_mono"] "cff" [0.1; 0.5]%float 500
              (declared_world []))
    as (table & Hout & Henergy & Hcolumns & _).
  - right. cbn. lia.
  - intros config w0. eexists. reflexivity.
  - intros request w0. eexists _, _. reflexivity.
  - exists table. split; [exact Hout |]. split; [exact Henergy |].
    destruct (Hcolumns "U52_M1B_G1600_mono" 0.5%float) as (curve & Hcurve & Hlen).
    + left.
    + right. left.
    + change ("U52_M1B_G1600_mono" +:+ "_" +:+ "cff" +:+ "_" +:+ format_fixed 2 0.5)
        with "U52_M1B_G1600_mono_cff_0.50" in Hcurve.
      rewrite Hcurve. cbn. rewrite Hlen. reflexivity.
Defined.

(** X12 on the ten-point sweep, which returns a table: the array is long
    enough and the configuration was accepted. *)
Lemma sweep_table_means_witness :
  (ten_energies = [] \/ (10 <= length ten_energies)%nat)
  /\ exists w0 w1, select_chain "U52_M1B_G1600_mono" w0 = inr w1.
Proof.
  destruct (sweep_table_means select_chain flat_resolution triad_distances
              ten_energies ["U52_M1B_G1600_mono"] "cff" [0.1; 0.5]%float 500
              (declared_world [])
              match outcome (beamline_energy_resolution select_chain flat_resolution
                               triad_distances ten_energies ["U52_M1B_G1600_mono"]
                               "cff" [0.1; 0.5]%float 500 (declared_world [])) with
              | inr table => table
              | inl _ => ∅
              end)
    as [Hlong Hselected].
  - vm_compute. reflexivity.
  - discriminate.
  - discriminate.
  - split; [exact Hlong |]. apply Hselected. left.
Defined.

(** X15 on a store in which the second grating is called "G2400". *)
Lemma build_chains_bad_grating_name_witness :
  outcome (build_chains [undulator_U52; undulator_U65; undulator_SII] [m1b; m1c]
             [grating_1600; grating_2400] [[m4a; m5a]; [m4b; m5b]; []] [cromag; mk2t]
             (mkWorld (<[grating_2400 := new_element "G2400"]> constructed_element)
                      ∅ [] []))
  = inl IndexError.
Proof.
  apply (build_chains_bad_grating_name
           [undulator_U52; undulator_U65; undulator_SII] [m1b; m1c]
           [grating_1600; grating_2400] [[m4a; m5a]; [m4b; m5b]; []] [cromag; mk2t]
           (mkWorld (<[grating_2400 := new_element "G2400"]> constructed_element) ∅ [] [])
           grating_2400).
  - discriminate.
  - discriminate.
  - discriminate.
  - right. left.
  - cbn. intros H. repeat destruct H as [H | H]; try discriminate H. exact H.
Defined.

(** X13 at point 7 of 25: 28 percent, two hashes. *)
Lemma progress_bar_is_full_width_witness :
  exists bar progress,
    report_progress 7 25 10 (declared_world [])
    = (with_stdout [Out_progress bar progress] (declared_world []), inr tt)
    /\ progress = 28%Z /\ bar = "##--------".
Proof.
  destruct (progress_bar_is_full_width 7 25 (declared_world []) ltac:(lia))
    as (bar & progress & Hrun & _ & _ & Hbar & _).
  exists bar, progress. split; [exact Hrun |].
  unfold report_progress, bind, print in Hrun. cbn in Hrun.
  injection Hrun as Hb Hp. subst bar progress. split; reflexivity.
Defined.
